(** * Hotspot: recording session and privilege helper

    A shallow embedding of [src/perfrecord.cpp] (class [PerfRecord] and the
    capability probes) and of [src/authhelper.cpp] (the KAuth helper's
    [elevate] action), followed by the properties of the recording session
    that the specification states.

    The program is event driven: member functions run to completion on one
    thread, and the Qt objects they create (processes, a timer, a KAuth job)
    call back into lambdas later.  The embedding keeps that shape:
    - every member function and every lambda is a computation in a small
      state-and-trace monad [M] over the session's fields;
    - whatever a computation does to the outside (signals it emits, requests
      to a [QProcess], a timer or a job) is appended, in program order, to
      one trace of [Effect]s;
    - the event loop is [dispatch], which routes one [Event] to the lambdas
      connected for it. *)

From Stdlib Require Import ZArith String Ascii List Bool Lia.
From stdpp Require Import base option list gmap strings pretty.
Import ListNotations.

Open Scope string_scope.
Open Scope list_scope.

(** ** Strings, paths and files as Qt presents them *)

Module Qt.

(** [QString] and [QByteArray] are both modelled as [string];
    [QString::fromUtf8] is then the identity. *)

Definition isEmpty (s : string) : bool :=
  match s with
  | EmptyString => true
  | String _ _ => false
  end.

(** [QByteArray::contains(needle)]: [needle] occurs somewhere in [s]. *)
Fixpoint contains (s needle : string) : bool :=
  String.prefix needle s
  || match s with
     | EmptyString => false
     | String _ rest => contains rest needle
     end.

(** [QStringList::join(sep)]. *)
Fixpoint join (sep : string) (l : list string) : string :=
  match l with
  | [] => ""
  | [x] => x
  | x :: rest => x +:+ sep +:+ join sep rest
  end.

(** The bytes of [s] from offset [n] on: what [QIODevice::readAll] returns
    for a file whose read position is [n]. *)
Fixpoint drop (n : nat) (s : string) : string :=
  match n, s with
  | O, _ => s
  | S _, EmptyString => EmptyString
  | S n', String _ rest => drop n' rest
  end.

(** Index of the last ['/'] of a path, if it has one. *)
Fixpoint lastSeparator (s : string) : option nat :=
  match s with
  | EmptyString => None
  | String c rest =>
      match lastSeparator rest with
      | Some i => Some (S i)
      | None => if Ascii.eqb c "/"%char then Some O else None
      end
  end.

Fixpoint endsWithSlash (s : string) : bool :=
  match s with
  | EmptyString => false
  | String c EmptyString => Ascii.eqb c "/"%char
  | String _ rest => endsWithSlash rest
  end.

(** [QFileInfo(file).dir().path()]: the text before the last separator,
    ["."] when there is none and ["/"] when it is the first character;
    [QDir] drops one trailing separator of a longer path. *)
Definition dirPath (file : string) : string :=
  match lastSeparator file with
  | None => "."
  | Some O => "/"
  | Some n =>
      let p := String.substring 0 n file in
      if endsWithSlash p && (1 <? String.length p)%nat
      then String.substring 0 (String.length p - 1) p
      else p
  end.

(** The line feed, written ["\n"] in the source. *)
Definition LF : string := String "010"%char EmptyString.

(** What [QFileInfo] answers for one path. *)
Record QFileInfo := {
  exists_ : bool;
  isDir : bool;
  isWritable : bool;
  size : Z
}.

(** [QProcess::ProcessError] and [QProcess::ExitStatus]. *)
Inductive ProcessError :=
| FailedToStart | Crashed | Timedout | ReadError | WriteError | UnknownError.

Inductive ExitStatus := NormalExit | CrashExit.

End Qt.

(** [EXIT_SUCCESS] of <cstdlib> and [SIGTERM] of <csignal> on the platform
    the program is built for. *)
Definition EXIT_SUCCESS : Z := 0.
Definition SIGTERM : Z := 15.

(** The part of the machine that the program only reads.  A handler receives
    the snapshot taken at the moment it runs. *)
Record World := {
  (** [QFileInfo(path)] *)
  fileInfo : string -> Qt.QFileInfo;
  (** [Util::findLibexecBinary(name)]; empty when nothing is found *)
  findLibexecBinary : string -> string;
  (** [errorString()] of a process object *)
  errorString : nat -> string;
  (** what [readAll()] on a process object returns *)
  processOutput : nat -> string;
  (** [fileName()] of a temporary file *)
  tempFileName : nat -> string;
  (** the bytes a temporary file holds *)
  tempFileContent : nat -> string
}.

(** ** The recording session, [perfrecord.cpp] *)

Module PerfRecord.

(** The signals of class [PerfRecord]. *)
Inductive Signal :=
| recordingStarted (perfBinary : string) (arguments : list string)
| recordingFinished (fileLocation : string)
| recordingFailed (errorMessage : string)
| recordingOutput (text : string).

(** What a member function or a lambda does to the outside, in the order in
    which the statements run.  Processes, temporary files with their timer
    and job are named by the number handed out when they are created. *)
Inductive Effect :=
| Emit (sig : Signal)
| ProcNew (p : nat)
| ProcSetMergedChannels (p : nat)
| ProcSetWorkingDirectory (p : nat) (dir : string)
| ProcStart (p : nat) (program : string) (arguments : list string)
| ProcKill (p : nat)
| ProcTerminate (p : nat)
| ProcDeleteLater (p : nat)
| TempFileOpen (c : nat)
| JobStart (c : nat) (action helperId script output : string)
| TimerStart (c : nat) (msec : Z)
| NullDereference.

(** One elevation attempt: the temporary [outputFile], its [readTimer], the
    KAuth job, and the values [readSlot] captured by copy. *)
Record Elevation := {
  readPos : nat;
  readTimer : option Z;
  perfOptions : list string;
  outputPath : string;
  recordOptions : list string;
  workingDirectory : string
}.

(** The lambdas connected to one process object.  [finished],
    [errorOccurred] and [readyRead] are connected together; [started] is
    connected last and captures the binary and the command by copy. *)
Record Connections := {
  startedSlot : option (string * list string)
}.

Record Session := {
  m_perfRecordProcess : option nat;
  m_outputPath : string;
  m_userTerminated : bool;
  connections : gmap nat Connections;
  pendingDelete : gset nat;
  elevations : gmap nat Elevation;
  nextObject : nat
}.

(** [PerfRecord::PerfRecord] *)
Definition initial : Session := {|
  m_perfRecordProcess := None;
  m_outputPath := "";
  m_userTerminated := false;
  connections := ∅;
  pendingDelete := ∅;
  elevations := ∅;
  nextObject := 0
|}.

(** *** The monad *)

Definition M (A : Type) : Type := Session -> A * Session * list Effect.

Definition ret {A} (a : A) : M A := fun s => (a, s, []).

Definition result_of {A} (r : A * Session * list Effect) : A := fst (fst r).
Definition state_of {A} (r : A * Session * list Effect) : Session := snd (fst r).
Definition trace_of {A} (r : A * Session * list Effect) : list Effect := snd r.

Definition bind {A B} (m : M A) (k : A -> M B) : M B :=
  fun s =>
    let r1 := m s in
    let r2 := k (result_of r1) (state_of r1) in
    (result_of r2, state_of r2, trace_of r1 ++ trace_of r2).

Definition get : M Session := fun s => (s, s, []).
Definition modify (f : Session -> Session) : M unit := fun s => (tt, f s, []).
Definition tell (t : list Effect) : M unit := fun s => (tt, s, t).
Definition emit (sig : Signal) : M unit := tell [Emit sig].
Definition skip : M unit := ret tt.

#[global] Instance M_ret : MRet M := @ret.
#[global] Instance M_bind : MBind M := fun A B k m => bind m k.

(** The signals of a trace, in order. *)
Definition signals (t : list Effect) : list Signal :=
  omap (fun e => match e with Emit sig => Some sig | _ => None end) t.

(** The process starts of a trace, in order. *)
Definition spawns (t : list Effect) : list (nat * string * list string) :=
  omap (fun e => match e with ProcStart p b a => Some (p, b, a) | _ => None end) t.


(** *** Field updates *)

Definition set_perfRecordProcess (p : option nat) (s : Session) : Session :=
  {| m_perfRecordProcess := p;
     m_outputPath := m_outputPath s;
     m_userTerminated := m_userTerminated s;
     connections := connections s;
     pendingDelete := pendingDelete s;
     elevations := elevations s;
     nextObject := nextObject s |}.

Definition set_outputPath (path : string) (s : Session) : Session :=
  {| m_perfRecordProcess := m_perfRecordProcess s;
     m_outputPath := path;
     m_userTerminated := m_userTerminated s;
     connections := connections s;
     pendingDelete := pendingDelete s;
     elevations := elevations s;
     nextObject := nextObject s |}.

Definition set_userTerminated (b : bool) (s : Session) : Session :=
  {| m_perfRecordProcess := m_perfRecordProcess s;
     m_outputPath := m_outputPath s;
     m_userTerminated := b;
     connections := connections s;
     pendingDelete := pendingDelete s;
     elevations := elevations s;
     nextObject := nextObject s |}.

Definition set_connections (c : gmap nat Connections) (s : Session) : Session :=
  {| m_perfRecordProcess := m_perfRecordProcess s;
     m_outputPath := m_outputPath s;
     m_userTerminated := m_userTerminated s;
     connections := c;
     pendingDelete := pendingDelete s;
     elevations := elevations s;
     nextObject := nextObject s |}.

Definition set_pendingDelete (d : gset nat) (s : Session) : Session :=
  {| m_perfRecordProcess := m_perfRecordProcess s;
     m_outputPath := m_outputPath s;
     m_userTerminated := m_userTerminated s;
     connections := connections s;
     pendingDelete := d;
     elevations := elevations s;
     nextObject := nextObject s |}.

Definition set_elevations (e : gmap nat Elevation) (s : Session) : Session :=
  {| m_perfRecordProcess := m_perfRecordProcess s;
     m_outputPath := m_outputPath s;
     m_userTerminated := m_userTerminated s;
     connections := connections s;
     pendingDelete := pendingDelete s;
     elevations := e;
     nextObject := nextObject s |}.

Definition set_nextObject (n : nat) (s : Session) : Session :=
  {| m_perfRecordProcess := m_perfRecordProcess s;
     m_outputPath := m_outputPath s;
     m_userTerminated := m_userTerminated s;
     connections := connections s;
     pendingDelete := pendingDelete s;
     elevations := elevations s;
     nextObject := n |}.

(** [new T(...)]: the next unused object number. *)
Definition newObject : M nat :=
  s ← get;
  modify (set_nextObject (S (nextObject s)));;
  ret (nextObject s).

(** *** The lambdas of [startRecording] *)

(** The message of the [finished] lambda,
    [tr("Failed to record perf data, error code %1.").arg(exitCode)]. *)
Definition exitCodeMessage (exitCode : Z) : string :=
  "Failed to record perf data, error code " +:+ pretty exitCode +:+ ".".

(** Lines 160-171, the lambda connected to [QProcess::finished]. *)
Definition onFinished (w : World) (exitCode : Z) (exitStatus : Qt.ExitStatus) : M unit :=
  s ← get;
  let outputFileInfo := fileInfo w (m_outputPath s) in
  (if ((exitCode =? EXIT_SUCCESS)%Z
       || ((exitCode =? SIGTERM)%Z && m_userTerminated s)
       || (0 <? Qt.size outputFileInfo)%Z)
      && Qt.exists_ outputFileInfo
   then emit (recordingFinished (m_outputPath s))
   else emit (recordingFailed (exitCodeMessage exitCode)));;
  modify (set_userTerminated false).

(** Lines 173-178, the lambda connected to [QProcess::errorOccurred].  It
    reads the error text of the session's current process. *)
Definition onErrorOccurred (w : World) (error : Qt.ProcessError) : M unit :=
  s ← get;
  if negb (m_userTerminated s)
  then match m_perfRecordProcess s with
       | Some p => emit (recordingFailed (errorString w p))
       | None => tell [NullDereference]
       end
  else skip.

(** Lines 180-183, the lambda connected to [QProcess::readyRead]. *)
Definition onReadyRead (w : World) : M unit :=
  s ← get;
  match m_perfRecordProcess s with
  | Some p => emit (recordingOutput (processOutput w p))
  | None => tell [NullDereference]
  end.

(** Lines 196-197, the lambda connected to [QProcess::started]. *)
Definition onStarted (perfBinary : string) (perfCommand : list string) : M unit :=
  emit (recordingStarted perfBinary perfCommand).

(** *** [PerfRecord::startRecording], the overload without elevation *)

Definition folderDoesNotExist (folderPath : string) : string :=
  "Folder '" +:+ folderPath +:+ "' does not exist.".
Definition notAFolder (folderPath : string) : string :=
  "'" +:+ folderPath +:+ "' is not a folder.".
Definition folderNotWritable (folderPath : string) : string :=
  "Folder '" +:+ folderPath +:+ "' is not writable.".

Definition startRecording (w : World) (perfOptions : list string) (outputPath : string)
    (recordOptions : list string) (workingDirectory : string) : M unit :=
  (* Reset perf record process to avoid getting signals from old processes *)
  old ← get;
  match m_perfRecordProcess old with
  | Some q =>
      tell [ProcKill q; ProcDeleteLater q];;
      modify (fun s => set_pendingDelete ({[q]} ∪ pendingDelete s) s)
  | None => skip
  end;;
  p ← newObject;
  tell [ProcNew p];;
  modify (set_perfRecordProcess (Some p));;
  tell [ProcSetMergedChannels p];;
  let folderPath := Qt.dirPath outputPath in
  let folderInfo := fileInfo w folderPath in
  if negb (Qt.exists_ folderInfo) then
    emit (recordingFailed (folderDoesNotExist folderPath))
  else if negb (Qt.isDir folderInfo) then
    emit (recordingFailed (notAFolder folderPath))
  else if negb (Qt.isWritable folderInfo) then
    emit (recordingFailed (folderNotWritable folderPath))
  else
    modify (fun s => set_connections (<[p := {| startedSlot := None |}]> (connections s)) s);;
    modify (set_outputPath outputPath);;
    s ← get;
    let perfBinary := "perf" in
    (if negb (Qt.isEmpty workingDirectory)
     then tell [ProcSetWorkingDirectory p workingDirectory]
     else skip);;
    let perfCommand := ["record"; "-o"; m_outputPath s] ++ perfOptions ++ recordOptions in
    modify (fun s => set_connections
                       (<[p := {| startedSlot := Some (perfBinary, perfCommand) |}]> (connections s)) s);;
    tell [ProcStart p perfBinary perfCommand].


(** *** [PerfRecord::startRecording], the overload with elevation *)

Definition set_readPos (n : nat) (e : Elevation) : Elevation :=
  {| readPos := n;
     readTimer := readTimer e;
     perfOptions := perfOptions e;
     outputPath := outputPath e;
     recordOptions := recordOptions e;
     workingDirectory := workingDirectory e |}.

Definition set_readTimer (t : option Z) (e : Elevation) : Elevation :=
  {| readPos := readPos e;
     readTimer := t;
     perfOptions := perfOptions e;
     outputPath := outputPath e;
     recordOptions := recordOptions e;
     workingDirectory := workingDirectory e |}.

Definition privilegesElevated : string := Qt.LF +:+ "privileges elevated!" +:+ Qt.LF.
Definition errorMarker : string := "Error:".

(** Lines 89-104, [readSlot], connected to the timeout of [readTimer].
    [outputFile->readAll()] returns the bytes behind the read position and
    moves the position to the end of what it returned. *)
Definition readSlot (w : World) (c : nat) : M unit :=
  s ← get;
  match elevations s !! c with
  | None => tell [NullDereference]
  | Some e =>
      let data := Qt.drop (readPos e) (tempFileContent w c) in
      modify (fun s => set_elevations
                         (<[c := set_readPos (readPos e + String.length data) e]> (elevations s)) s);;
      if Qt.isEmpty data then
        skip
      else if Qt.contains data privilegesElevated then
        emit (recordingOutput data);;
        emit (recordingOutput Qt.LF);;
        startRecording w (perfOptions e) (outputPath e) (recordOptions e) (workingDirectory e)
      else if Qt.contains data errorMarker then
        emit (recordingFailed ("Failed to elevate privileges: " +:+ data))
      else
        emit (recordingOutput data)
  end.

(** Lines 116-124, the lambda connected to the job's [percentChanged]. *)
Definition onPercentChanged (c : nat) (step : Z) : M unit :=
  if (step =? 1)%Z then
    emit (recordingFailed "Failed to elevate privileges.")
  else if (step =? 2)%Z then
    tell [TimerStart c 250];;
    modify (fun s => set_elevations (alter (set_readTimer (Some 250%Z)) c (elevations s)) s)
  else
    skip.

(** Lines 66-130. *)
Definition startRecordingElevated (w : World) (elevatePrivileges : bool)
    (perfOptions : list string) (outputPath : string)
    (recordOptions : list string) (workingDirectory : string) : M unit :=
  if elevatePrivileges then
    let elevateScript := findLibexecBinary w "elevate_perf_privileges.sh" in
    if Qt.isEmpty elevateScript then
      emit (recordingFailed "Failed to find `elevate_perf_privileges.sh` script.")
    else
      c ← newObject;
      tell [TempFileOpen c];;
      modify (fun s => set_elevations
                         (<[c := {| readPos := 0;
                                    readTimer := None;
                                    perfOptions := perfOptions;
                                    outputPath := outputPath;
                                    recordOptions := recordOptions;
                                    workingDirectory := workingDirectory |}]> (elevations s)) s);;
      tell [JobStart c "com.kdab.hotspot.elevate" "com.kdab.hotspot"
                     elevateScript (tempFileName w c)]
  else
    startRecording w perfOptions outputPath recordOptions workingDirectory.

(** *** The public operations *)

(** Lines 201-212.  The call leaves out [workingDirectory], whose default in
    the class declaration is the empty string. *)
Definition record (w : World) (perfOptions : list string) (outputPath : string)
    (elevatePrivileges : bool) (pids : list string) : M unit :=
  match pids with
  | [] => emit (recordingFailed "Process does not exist.")
  | _ :: _ =>
      let options := perfOptions ++ ["--pid"; Qt.join "," pids] in
      startRecordingElevated w elevatePrivileges options outputPath [] ""
  end.

(** Lines 242-247. *)
Definition recordSystem (w : World) (perfOptions : list string) (outputPath : string) : M unit :=
  let options := perfOptions ++ ["--all-cpus"] in
  startRecordingElevated w true options outputPath [] "".

(** Lines 258-264. *)
Definition stopRecording : M unit :=
  modify (set_userTerminated true);;
  s ← get;
  match m_perfRecordProcess s with
  | Some p => tell [ProcTerminate p]
  | None => skip
  end.

(** *** The event loop *)

Inductive Request :=
| CallRecord (perfOptions : list string) (outputPath : string)
             (elevatePrivileges : bool) (pids : list string)
| CallRecordSystem (perfOptions : list string) (outputPath : string)
| CallStopRecording.

Inductive Event :=
| Call (r : Request)
| ProcStarted (p : nat)
| ProcErrorOccurred (p : nat) (error : Qt.ProcessError)
| ProcFinished (p : nat) (exitCode : Z) (exitStatus : Qt.ExitStatus)
| ProcReadyRead (p : nat)
| DeferredDelete (p : nat)
| JobPercentChanged (c : nat) (step : Z)
| TimerTimeout (c : nat).

Definition call (w : World) (r : Request) : M unit :=
  match r with
  | CallRecord perfOptions outputPath elevatePrivileges pids =>
      record w perfOptions outputPath elevatePrivileges pids
  | CallRecordSystem perfOptions outputPath => recordSystem w perfOptions outputPath
  | CallStopRecording => stopRecording
  end.

(** One turn of the event loop.  A signal of a process reaches the lambdas
    connected to that process object, a deferred deletion destroys the object
    and with it its connections, a timeout reaches [readSlot] while the timer
    runs, and a progress report reaches the lambda of its job. *)
Definition dispatch (w : World) (ev : Event) : M unit :=
  s ← get;
  match ev with
  | Call r => call w r
  | ProcStarted p =>
      match connections s !! p with
      | Some {| startedSlot := Some (perfBinary, perfCommand) |} =>
          onStarted perfBinary perfCommand
      | _ => skip
      end
  | ProcErrorOccurred p error =>
      if decide (is_Some (connections s !! p)) then onErrorOccurred w error else skip
  | ProcFinished p exitCode exitStatus =>
      if decide (is_Some (connections s !! p)) then onFinished w exitCode exitStatus else skip
  | ProcReadyRead p =>
      if decide (is_Some (connections s !! p)) then onReadyRead w else skip
  | DeferredDelete p =>
      if decide (p ∈ pendingDelete s) then
        modify (fun s => set_connections (delete p (connections s))
                           (set_pendingDelete (pendingDelete s ∖ {[p]}) s))
      else skip
  | JobPercentChanged c step =>
      if decide (is_Some (elevations s !! c)) then onPercentChanged c step else skip
  | TimerTimeout c =>
      match elevations s !! c with
      | Some {| readTimer := Some _ |} => readSlot w c
      | _ => skip
      end
  end.

(** A run of the event loop: each event comes with the state of the machine
    at the moment it is handled. *)
Fixpoint run (evs : list (World * Event)) : M unit :=
  match evs with
  | [] => skip
  | (w, ev) :: rest => dispatch w ev;; run rest
  end.

End PerfRecord.

(** ** The capability probes, [perfrecord.cpp] lines 287-359 *)

Module Capability.

(** [perfRecordHelp]: a function-local [static], initialised by the first
    call from the standard output of [perf record --help] and returned
    unchanged by every later call.  [perfOutput] stands for the function of
    that name, which runs the binary; the cache is the static's storage. *)
Definition perfRecordHelp (perfOutput : list string -> string) (cache : option string)
    : string * option string :=
  match cache with
  | Some recordHelp => (recordHelp, cache)
  | None =>
      let help := perfOutput ["record"; "--help"] in
      let help := if Qt.isEmpty help
                  then "--sample-cpu --switch-events" (* no man page installed, assume the best *)
                  else help in
      (help, Some help)
  end.

Definition canSampleCpu (perfOutput : list string -> string) (cache : option string)
    : bool * option string :=
  let '(help, cache) := perfRecordHelp perfOutput cache in
  (Qt.contains help "--sample-cpu", cache).

Definition canSwitchEvents (perfOutput : list string -> string) (cache : option string)
    : bool * option string :=
  let '(help, cache) := perfRecordHelp perfOutput cache in
  (Qt.contains help "--switch-events", cache).

(** [needle] occurs in [s], stated without the search. *)
Definition occursIn (needle s : string) : Prop :=
  exists before after, s = before +:+ needle +:+ after.

End Capability.

(** ** The privileged helper, [authhelper.cpp] *)

Module AuthHelper.

(** The replies [KAuth::ActionReply] offers ready made. *)
Inductive ActionReply :=
| SuccessReply
| HelperErrorReply
| NoResponderReply
| NoSuchActionReply
| InvalidActionReply
| AuthorizationDeniedReply
| UserCancelledReply
| HelperBusyReply
| AlreadyStartedReply
| DBusErrorReply.

(** What reaches the event loop that [elevate] runs: the signals of the
    script's process and the single shot of the watchdog timer. *)
Inductive Event :=
| started
| errorOccurred (error : Qt.ProcessError)
| finished (exitCode : Z) (exitStatus : Qt.ExitStatus)
| watchdog.

Inductive Effect :=
| SingleShot (msec : Z)
| ProcStart (program : string) (arguments : list string)
| DebugPrint
| ProgressStep (step : Z)
| DisconnectErrorOccurred
| ProcTerminate
| ProcKill.

Record State := {
  errorOccurredConnected : bool;
  loopQuit : bool
}.

(** The connections as lines 22-32 leave them. *)
Definition armed : State := {| errorOccurredConnected := true; loopQuit := false |}.

(** One event handled inside [loop.exec()]: lines 22-25 for an error while
    the lambda is connected, line 26 for [started], line 27 for [finished],
    lines 29-32 for the watchdog. *)
Definition handle (st : State) (ev : Event) : State * list Effect :=
  match ev with
  | errorOccurred _ =>
      if errorOccurredConnected st
      then (st, [DebugPrint; ProgressStep 1])
      else (st, [])
  | started => (st, [ProgressStep 2])
  | finished _ _ =>
      ({| errorOccurredConnected := errorOccurredConnected st; loopQuit := true |}, [])
  | watchdog =>
      ({| errorOccurredConnected := false; loopQuit := loopQuit st |},
       [DisconnectErrorOccurred; ProcTerminate])
  end.

(** [loop.exec()]: events are handled until one of them quits the loop.  The
    result is [None] when the events run out first: the call is then still
    blocked in the loop. *)
Fixpoint exec (st : State) (evs : list Event) : option State * list Effect :=
  match evs with
  | [] => (None, [])
  | ev :: rest =>
      let '(st', t) := handle st ev in
      if loopQuit st' then (Some st', t)
      else let '(r, t') := exec st' rest in (r, t ++ t')
  end.

(** [AuthHelper::elevate].  [args] is the [QVariantMap]; a missing key reads
    as the empty string.  The watchdog is armed, the script started, and the
    loop entered. *)
Definition elevate (args : gmap string string) (evs : list Event)
    : option ActionReply * list Effect :=
  let script := default "" (args !! "script") in
  let output := default "" (args !! "output") in
  let '(r, t) := exec armed evs in
  (match r with
   | Some _ => Some SuccessReply
   | None => None
   end,
   SingleShot 1000 :: ProcStart script [output] :: t).

(** The progress steps of a trace, in order. *)
Definition progressSteps (t : list Effect) : list Z :=
  omap (fun e => match e with ProgressStep n => Some n | _ => None end) t.

(** How the script's process can go, and everything [QProcess] and the timer
    then deliver to the loop, in order.  [QProcess] emits [finished] when a
    process that had started is gone, and only [errorOccurred] for one that
    could not be started; a process that dies of a signal reports [Crashed]
    first and finishes with the signal's number; [terminate()] asks with
    [SIGTERM], which a process may handle without exiting. *)
Inductive Script :=
| CannotStart
| ExitsInTime (exitCode : Z)
| CrashesInTime (signal : Z)
| EndsOnTerminate
| KeepsRunning.

Definition delivered (b : Script) : list Event :=
  match b with
  | CannotStart => [errorOccurred Qt.FailedToStart; watchdog]
  | ExitsInTime exitCode => [started; finished exitCode Qt.NormalExit; watchdog]
  | CrashesInTime signal =>
      [started; errorOccurred Qt.Crashed; finished signal Qt.CrashExit; watchdog]
  | EndsOnTerminate =>
      [started; watchdog; errorOccurred Qt.Crashed; finished SIGTERM Qt.CrashExit]
  | KeepsRunning => [started; watchdog]
  end.

End AuthHelper.

(** ** What the specification asks of an exit *)

Module Spec.

(** The composite condition of the specification: the output file exists, and
    the exit code is the success code, or it is the termination signal's value
    after a stop the user asked for, or the output file holds data. *)
Definition exitAccepted (w : World) (s : PerfRecord.Session) (exitCode : Z) : Prop :=
  let outputFileInfo := fileInfo w (PerfRecord.m_outputPath s) in
  Qt.exists_ outputFileInfo = true
  /\ (exitCode = EXIT_SUCCESS
      \/ (exitCode = SIGTERM /\ PerfRecord.m_userTerminated s = true)
      \/ (0 < Qt.size outputFileInfo)%Z).

(** The parent directory of an output path passes the three checks. *)
Definition folderUsable (w : World) (outputPath : string) : Prop :=
  let folderInfo := fileInfo w (Qt.dirPath outputPath) in
  Qt.exists_ folderInfo = true /\ Qt.isDir folderInfo = true /\ Qt.isWritable folderInfo = true.

(** The requests that replacing the session's process sends to the process
    it had before: a forced kill and a deferred deletion. *)
Definition replaced (s : PerfRecord.Session) : list PerfRecord.Effect :=
  match PerfRecord.m_perfRecordProcess s with
  | Some q => [PerfRecord.ProcKill q; PerfRecord.ProcDeleteLater q]
  | None => []
  end.

(** A computation without side effects, in the words of the specification:
    it emits signals and does nothing else; the session and its processes are
    as they were. *)
Definition withoutSideEffects {A} (s : PerfRecord.Session)
    (r : A * PerfRecord.Session * list PerfRecord.Effect) : Prop :=
  PerfRecord.state_of r = s
  /\ forall e, In e (PerfRecord.trace_of r) -> exists sig, e = PerfRecord.Emit sig.

(** Polling of the temporary file [c] has stopped: its timer does not run. *)
Definition pollingStopped (s : PerfRecord.Session) (c : nat) : Prop :=
  forall e, PerfRecord.elevations s !! c = Some e -> PerfRecord.readTimer e = None.

(** The event is the [finished] signal of a process. *)
Definition isFinished (ev : PerfRecord.Event) : Prop :=
  match ev with
  | PerfRecord.ProcFinished _ _ _ => True
  | _ => False
  end.

End Spec.

Import PerfRecord.

(** ** Sample machines and sessions *)

Module Sample.

Definition missing : Qt.QFileInfo :=
  {| Qt.exists_ := false; Qt.isDir := false; Qt.isWritable := false; Qt.size := 0 |}.
Definition folder : Qt.QFileInfo :=
  {| Qt.exists_ := true; Qt.isDir := true; Qt.isWritable := true; Qt.size := 4096 |}.
Definition emptyFile : Qt.QFileInfo :=
  {| Qt.exists_ := true; Qt.isDir := false; Qt.isWritable := true; Qt.size := 0 |}.

(** A machine with a writable [/tmp] that holds an empty [/tmp/out.data],
    and whose temporary file [c] holds [content c]. *)
Definition machine (content : nat -> string) : World :=
  {| fileInfo := fun path =>
       if String.eqb path "/tmp" then folder
       else if String.eqb path "/tmp/out.data" then emptyFile
       else missing;
     findLibexecBinary := fun name => "/usr/lib/libexec/" +:+ name;
     errorString := fun _ => "execvp: No such file or directory";
     processOutput := fun _ => "";
     tempFileName := fun _ => "/tmp/hotspot.Xq3f1a";
     tempFileContent := content |}.

Definition quiet : World := machine (fun _ => "").

(** A session whose process [0] records into [/tmp/out.data]. *)
Definition recording : Session :=
  {| m_perfRecordProcess := Some 0;
     m_outputPath := "/tmp/out.data";
     m_userTerminated := false;
     connections := {[ 0 := {| startedSlot := Some ("perf", ["record"; "-o"; "/tmp/out.data"]) |} ]};
     pendingDelete := ∅;
     elevations := ∅;
     nextObject := 1 |}.

(** What the elevation script has written once the privileges are raised,
    and what the file holds when it writes on after that. *)
Definition elevatedText : string :=
  "elevating privileges" +:+ Qt.LF +:+ "privileges elevated!" +:+ Qt.LF.
Definition elevated : World := machine (fun _ => elevatedText).
Definition writtenOn : World := machine (fun _ => elevatedText +:+ "Error: late").

(** A session that asked for an elevated recording of process 1234 into
    [outputPath] and whose helper has reported that the script runs. *)
Definition elevating (outputPath : string) : Session :=
  state_of (run [(quiet, Call (CallRecord ["-F"; "99"] outputPath true ["1234"]));
                 (quiet, JobPercentChanged 0 2)] initial).

(** The arguments the session passes to the helper. *)
Definition helperArgs : gmap string string :=
  {[ "script" := "/usr/lib/libexec/elevate_perf_privileges.sh";
     "output" := "/tmp/hotspot.Xq3f1a" ]}.

End Sample.

(** ** What every step of the session preserves *)

Module Invariant.

(** Object numbers in use are below the next one to be handed out. *)
Definition fresh (s : Session) : Prop :=
  forall c, is_Some (elevations s !! c) -> c < nextObject s.

(** Two states of one elevation attempt that agree on the request captured
    by [readSlot]. *)
Definition sameRequest (e e' : Elevation) : Prop :=
  perfOptions e' = perfOptions e
  /\ outputPath e' = outputPath e
  /\ recordOptions e' = recordOptions e
  /\ workingDirectory e' = workingDirectory e.

(** From [s] to [s']: every elevation attempt is still there with the request
    it captured, and a timer that ran still runs. *)
Definition keeps (s s' : Session) : Prop :=
  fresh s'
  /\ nextObject s <= nextObject s'
  /\ forall c e, elevations s !! c = Some e ->
       exists e', elevations s' !! c = Some e'
                  /\ sameRequest e e'
                  /\ (is_Some (readTimer e) -> is_Some (readTimer e')).

End Invariant.

(** ** Recording a program, [perfrecord.cpp] lines 214-240 *)

Module Executable.

(** What [QFileInfo] answers about a program file. *)
Record QFileInfo := {
  exists_ : bool;
  isFile : bool;
  isExecutable : bool;
  absoluteFilePath : string
}.

(** The program files of the machine: [QFileInfo(path)], and
    [QStandardPaths::findExecutable(name)], empty when the search path has no
    such program. *)
Record Programs := {
  programInfo : string -> QFileInfo;
  findExecutable : string -> string
}.

Definition doesNotExist (exePath : string) : string :=
  "File '" +:+ exePath +:+ "' does not exist.".
Definition notAFile (exePath : string) : string :=
  "'" +:+ exePath +:+ "' is not a file.".
Definition notExecutable (exePath : string) : string :=
  "File '" +:+ exePath +:+ "' is not executable.".

(** The overload of [PerfRecord::record] that launches a program. *)
Definition record (w : World) (x : Programs) (perfOptions : list string)
    (outputPath : string) (elevatePrivileges : bool) (exePath : string)
    (exeOptions : list string) (workingDirectory : string) : M unit :=
  let exeFileInfo := programInfo x exePath in
  let exeFileInfo :=
    if negb (exists_ exeFileInfo)
    then programInfo x (findExecutable x exePath)
    else exeFileInfo in
  if negb (exists_ exeFileInfo) then
    emit (recordingFailed (doesNotExist exePath))
  else if negb (isFile exeFileInfo) then
    emit (recordingFailed (notAFile exePath))
  else if negb (isExecutable exeFileInfo) then
    emit (recordingFailed (notExecutable exePath))
  else
    let recordOptions := absoluteFilePath exeFileInfo :: exeOptions in
    startRecordingElevated w elevatePrivileges perfOptions outputPath
      recordOptions workingDirectory.

(** The file the checks of [record] look at: the path itself when it exists,
    otherwise what the search path gives for it. *)
Definition resolved (x : Programs) (exePath : string) : QFileInfo :=
  if negb (exists_ (programInfo x exePath))
  then programInfo x (findExecutable x exePath)
  else programInfo x exePath.

Definition launchable (x : Programs) (exePath : string) : bool :=
  exists_ (resolved x exePath) && isFile (resolved x exePath)
  && isExecutable (resolved x exePath).

End Executable.

(** ** The command line on display, [perfrecord.cpp] lines 249-256 *)

Module Display.

(** [QProcess::arguments()] of a process object: the list [start] was given,
    of which the [started] lambda holds a copy; empty for an object that was
    never started. *)
Definition arguments (s : Session) (p : nat) : list string :=
  match connections s !! p with
  | Some {| startedSlot := Some (_, perfCommand) |} => perfCommand
  | _ => []
  end.

(** [PerfRecord::perfCommand] *)
Definition perfCommand (s : Session) : string :=
  match m_perfRecordProcess s with
  | Some p => "perf " +:+ Qt.join " " (arguments s p)
  | None => ""
  end.

End Display.

(** ** Children of the session *)

Module Children.








End Children.

(** ** More capability probes, [perfrecord.cpp] lines 277-359 *)

Module Probe.

(** What [QFileInfo] answers about a directory of the tracing file system. *)
Record QFileInfo := {
  isDir : bool;
  isReadable : bool
}.

(** What the probes read of the machine: [QFileInfo(path)]; the content of a
    file, [None] when it cannot be opened for reading;
    [QStandardPaths::findExecutable(name)]; the standard output of [perf]
    run with the given arguments (the function [perfOutput]). *)
Record Machine := {
  fileInfo : string -> QFileInfo;
  readFile : string -> option string;
  findExecutable : string -> string;
  perfOutput : list string -> string
}.

(** The bytes [QByteArray::trimmed] removes at both ends: tab, line feed,
    vertical tab, form feed, carriage return and space. *)
Definition isSpace (c : ascii) : bool :=
  let n := nat_of_ascii c in
  ((9 <=? n)%nat && (n <=? 13)%nat) || (n =? 32)%nat.

Fixpoint trimStart (s : string) : string :=
  match s with
  | EmptyString => EmptyString
  | String c rest => if isSpace c then trimStart rest else s
  end.

Fixpoint trimEnd (s : string) : string :=
  match s with
  | EmptyString => EmptyString
  | String c rest =>
      let rest' := trimEnd rest in
      if isSpace c && Qt.isEmpty rest' then EmptyString else String c rest'
  end.

Definition trimmed (s : string) : string := trimEnd (trimStart s).

(** [PerfRecord::canTrace] *)
Definition canTrace (m : Machine) (path : string) : bool :=
  let info := fileInfo m ("/sys/kernel/debug/tracing/" +:+ path) in
  if negb (isDir info) || negb (isReadable info) then false
  else match readFile m "/proc/sys/kernel/perf_event_paranoid" with
       | Some content => String.eqb (trimmed content) "-1"
       | None => false
       end.

(** [PerfRecord::canProfileOffCpu] *)
Definition canProfileOffCpu (m : Machine) : bool :=
  canTrace m "events/sched/sched_switch".

(** [PerfRecord::offCpuProfilingOptions] *)
Definition offCpuProfilingOptions : list string :=
  ["--switch-events"; "--event"; "sched:sched_switch"].

(** [perfBuildOptions]: a function-local [static], initialised by the first
    call and returned unchanged afterwards; the cache is its storage. *)
Definition perfBuildOptions (m : Machine) (cache : option string) : string * option string :=
  match cache with
  | Some buildOptions => (buildOptions, cache)
  | None =>
      let buildOptions := perfOutput m ["version"; "--build-options"] in
      (buildOptions, Some buildOptions)
  end.

(** [PerfRecord::canUseAio] *)
Definition canUseAio (m : Machine) (cache : option string) : bool * option string :=
  let '(buildOptions, cache) := perfBuildOptions m cache in
  (Qt.contains buildOptions "aio: [ on  ]", cache).

(** [PerfRecord::canCompress]; [Zstd_FOUND] comes from [hotspot-config.h]. *)
Definition canCompress (Zstd_FOUND : bool) (m : Machine) (cache : option string)
    : bool * option string :=
  if Zstd_FOUND then
    let '(buildOptions, cache) := perfBuildOptions m cache in
    (Qt.contains buildOptions "zstd: [ on  ]", cache)
  else (false, cache).

(** [PerfRecord::isPerfInstalled] *)
Definition isPerfInstalled (m : Machine) : bool :=
  negb (Qt.isEmpty (findExecutable m "perf")).

(** A text of white space only. *)
Fixpoint blank (s : string) : bool :=
  match s with
  | EmptyString => true
  | String c rest => isSpace c && blank rest
  end.

End Probe.

(** ** The settings dialog, [settingsdialog.cpp] *)

Module SettingsDialog.

(** [QString::split(sep)], which keeps empty parts. *)
Fixpoint split (sep : ascii) (s : string) : list string :=
  match s with
  | EmptyString => [EmptyString]
  | String c rest =>
      if Ascii.eqb c sep then EmptyString :: split sep rest
      else match split sep rest with
           | first :: others => String c first :: others
           | [] => [String c EmptyString]
           end
  end.

(** The lambda [fromPathString] of [initSettings]:
    [string.split(':', Qt::SkipEmptyParts)], the items set on a path list. *)
Definition fromPathString (s : string) : list string :=
  List.filter (fun part => negb (Qt.isEmpty part)) (split ":"%char s).

(** [SettingsDialog::extraLibPaths] and [SettingsDialog::debugPaths] of a
    path list holding [items]. *)
Definition pathString (items : list string) : string := Qt.join ":" items.

(** The character [c] occurs in [s]. *)
Fixpoint hasChar (c : ascii) (s : string) : bool :=
  match s with
  | EmptyString => false
  | String x rest => Ascii.eqb x c || hasChar c rest
  end.

(** A combo box: the texts of its items and the index of the current one,
    [-1] when there is none. *)
Record QComboBox := {
  items : list string;
  currentIndex : Z
}.

Definition count (box : QComboBox) : Z := Z.of_nat (length (items box)).

Fixpoint findTextFrom (i : Z) (text : string) (l : list string) : Z :=
  match l with
  | [] => (-1)%Z
  | x :: rest => if String.eqb x text then i else findTextFrom (i + 1)%Z text rest
  end.

(** [QComboBox::findText]: the index of the first item with that text. *)
Definition findText (text : string) (box : QComboBox) : Z :=
  findTextFrom 0 text (items box).

(** [QComboBox::addItem]: appended; the first item of an empty box becomes
    the current one. *)
Definition addItem (text : string) (box : QComboBox) : QComboBox :=
  {| items := items box ++ [text];
     currentIndex := match items box with
                     | [] => 0%Z
                     | _ :: _ => currentIndex box
                     end |}.

(** [QComboBox::setCurrentIndex]: an index outside the items leaves no
    current item. *)
Definition setCurrentIndex (i : Z) (box : QComboBox) : QComboBox :=
  {| items := items box;
     currentIndex := if (0 <=? i)%Z && (i <? count box)%Z then i else (-1)%Z |}.

(** [QComboBox::currentText] *)
Definition currentText (box : QComboBox) : string :=
  if (0 <=? currentIndex box)%Z
  then nth (Z.to_nat (currentIndex box)) (items box) ""
  else "".

(** Lines 493-501 of the function file, the end of [initSettings]: the
    architecture is selected, and added first when the box does not have
    it. *)
Definition selectArchitecture (arch : string) (box : QComboBox) : QComboBox :=
  if negb (Qt.isEmpty arch) then
    let itemIndex := findText arch box in
    if (itemIndex =? -1)%Z then
      let itemIndex := count box in
      setCurrentIndex itemIndex (addItem arch box)
    else setCurrentIndex itemIndex box
  else setCurrentIndex 0 box.

(** [SettingsDialog::arch] *)
Definition arch (box : QComboBox) : string :=
  let sArch := currentText box in
  if String.eqb sArch "auto-detect" then "" else sArch.

End SettingsDialog.

(** ** More sample machines *)

Module Fixture.

Definition noProgram : Executable.QFileInfo :=
  {| Executable.exists_ := false; Executable.isFile := false;
     Executable.isExecutable := false; Executable.absoluteFilePath := "" |}.

Definition program (path : string) : Executable.QFileInfo :=
  {| Executable.exists_ := true; Executable.isFile := true;
     Executable.isExecutable := true; Executable.absoluteFilePath := path |}.

(** A machine whose only program is [/usr/bin/ls], found on the search path
    under the name [ls]. *)
Definition programs : Executable.Programs :=
  {| Executable.programInfo := fun path =>
       if String.eqb path "/usr/bin/ls" then program "/usr/bin/ls" else noProgram;
     Executable.findExecutable := fun name =>
       if String.eqb name "ls" then "/usr/bin/ls" else "" |}.

(** The success line of the elevation script, written in two parts. *)
Definition firstPart : string := "elevating" +:+ Qt.LF +:+ "privileges ele".
Definition secondPart : string := "vated!" +:+ Qt.LF.
Definition halfWritten : World := Sample.machine (fun _ => firstPart).
Definition fullyWritten : World := Sample.machine (fun _ => firstPart +:+ secondPart).

End Fixture.

(** * Properties *)

(** ** Strings *)

Lemma append_cons (x : ascii) (a b : string) : String x a +:+ b = String x (a +:+ b).
Proof. reflexivity. Qed.

Lemma length_string_append (a b : string) :
  String.length (a +:+ b) = String.length a + String.length b.
Proof.
  induction a as [|x a IH]; [reflexivity |].
  rewrite append_cons. simpl. now rewrite IH.
Qed.

Lemma append_inj_r (a b tail : string) : a +:+ tail = b +:+ tail -> a = b.
Proof.
  intros H.
  assert (Hlen : String.length a = String.length b).
  { apply (f_equal String.length) in H. rewrite !length_string_append in H. lia. }
  revert b H Hlen. induction a as [|x a IH]; intros [|y b] H Hlen;
    try discriminate Hlen; [reflexivity |].
  rewrite !append_cons in H. injection H as -> H.
  f_equal. apply IH; [assumption | simpl in Hlen; lia].
Qed.

Lemma exitCodeMessage_inj (c1 c2 : Z) : exitCodeMessage c1 = exitCodeMessage c2 -> c1 = c2.
Proof.
  unfold exitCodeMessage. intros H.
  apply String.app_inj in H. apply append_inj_r in H.
  now apply pretty_Z_inj in H.
Qed.

(** ** Running a computation *)

(** Computations are run by value: every step is brought to a triple before
    the next one looks at it. *)
Ltac step_m :=
  cbv beta iota zeta delta
    [mbind M_bind bind get modify tell emit skip ret newObject
     result_of state_of trace_of fst snd
     set_perfRecordProcess set_outputPath set_userTerminated set_connections
     set_pendingDelete set_elevations set_nextObject
     m_perfRecordProcess m_outputPath m_userTerminated connections
     pendingDelete elevations nextObject];
  cbn [app].

(** ** The exit of the child process *)

Lemma onFinished_trace (w : World) (s : Session) (exitCode : Z) (exitStatus : Qt.ExitStatus) :
  trace_of (onFinished w exitCode exitStatus s) =
    if ((exitCode =? EXIT_SUCCESS)%Z
        || ((exitCode =? SIGTERM)%Z && m_userTerminated s)
        || (0 <? Qt.size (fileInfo w (m_outputPath s)))%Z)
       && Qt.exists_ (fileInfo w (m_outputPath s))
    then [Emit (recordingFinished (m_outputPath s))]
    else [Emit (recordingFailed (exitCodeMessage exitCode))].
Proof.
  unfold onFinished. step_m.
  destruct (_ && _); reflexivity.
Qed.

Lemma onFinished_state (w : World) (s : Session) (exitCode : Z) (exitStatus : Qt.ExitStatus) :
  state_of (onFinished w exitCode exitStatus s) = set_userTerminated false s.
Proof.
  unfold onFinished.
  change (state_of
            (((if ((exitCode =? EXIT_SUCCESS)%Z
                   || ((exitCode =? SIGTERM)%Z && m_userTerminated s)
                   || (0 <? Qt.size (fileInfo w (m_outputPath s)))%Z)
                  && Qt.exists_ (fileInfo w (m_outputPath s))
               then emit (recordingFinished (m_outputPath s))
               else emit (recordingFailed (exitCodeMessage exitCode)));;
              modify (set_userTerminated false)) s)
          = set_userTerminated false s).
  destruct (_ && _); reflexivity.
Qed.

Lemma exitAccepted_test (w : World) (s : Session) (exitCode : Z) :
  Spec.exitAccepted w s exitCode <->
  ((exitCode =? EXIT_SUCCESS)%Z
   || ((exitCode =? SIGTERM)%Z && m_userTerminated s)
   || (0 <? Qt.size (fileInfo w (m_outputPath s)))%Z)
  && Qt.exists_ (fileInfo w (m_outputPath s)) = true.
Proof.
  unfold Spec.exitAccepted. cbv zeta.
  rewrite andb_true_iff, !orb_true_iff, andb_true_iff, !Z.eqb_eq, Z.ltb_lt.
  tauto.
Qed.

(** C1.  When the child process exits, the session emits
    [recordingFinished] with the output path exactly when the output file
    exists and the exit code is the success code, or is the value of the
    termination signal after a stop the user asked for, or the output file
    holds data.  In every other case it emits [recordingFailed] with a message
    from which the exit code can be read back.  Nothing else is emitted. *)
Theorem exit_finished_iff_accepted
    (w : World) (s : Session) (p : nat) (exitCode : Z) (exitStatus : Qt.ExitStatus) :
  is_Some (connections s !! p) ->
  let t := trace_of (dispatch w (ProcFinished p exitCode exitStatus) s) in
  (t = [Emit (recordingFinished (m_outputPath s))] <-> Spec.exitAccepted w s exitCode)
  /\ (t = [Emit (recordingFailed (exitCodeMessage exitCode))] <-> ~ Spec.exitAccepted w s exitCode)
  /\ (forall other : Z, exitCodeMessage other = exitCodeMessage exitCode -> other = exitCode).
Proof.
  intros Hconn t.
  assert (Ht : t = trace_of (onFinished w exitCode exitStatus s)).
  { subst t. unfold dispatch. step_m. destruct (decide _) as [_ | Hn]; [reflexivity | contradiction]. }
  rewrite Ht, onFinished_trace, exitAccepted_test.
  split; [| split].
  - destruct (_ && _); split; congruence.
  - destruct (_ && _); split; congruence.
  - intros other. apply exitCodeMessage_inj.
Qed.

Lemma exit_finished_iff_accepted_witness :
  let t := trace_of (dispatch Sample.quiet (ProcFinished 0 0 Qt.NormalExit) Sample.recording) in
  (t = [Emit (recordingFinished "/tmp/out.data")]
   <-> Spec.exitAccepted Sample.quiet Sample.recording 0)
  /\ (t = [Emit (recordingFailed (exitCodeMessage 0))]
      <-> ~ Spec.exitAccepted Sample.quiet Sample.recording 0)
  /\ (forall other : Z, exitCodeMessage other = exitCodeMessage 0 -> other = 0%Z).
Proof.
  apply (exit_finished_iff_accepted Sample.quiet Sample.recording 0 0 Qt.NormalExit).
  exists {| startedSlot := Some ("perf", ["record"; "-o"; "/tmp/out.data"]) |}.
  vm_compute. reflexivity.
Defined.

(** ** Starting a recording without elevation *)

Lemma folderUsable_test (w : World) (outputPath : string) :
  Spec.folderUsable w outputPath <->
  negb (Qt.exists_ (fileInfo w (Qt.dirPath outputPath))) = false
  /\ negb (Qt.isDir (fileInfo w (Qt.dirPath outputPath))) = false
  /\ negb (Qt.isWritable (fileInfo w (Qt.dirPath outputPath))) = false.
Proof.
  unfold Spec.folderUsable. cbv zeta. rewrite !negb_false_iff. tauto.
Qed.

Lemma folderUsable_dec (w : World) (outputPath : string) :
  Spec.folderUsable w outputPath \/ ~ Spec.folderUsable w outputPath.
Proof.
  unfold Spec.folderUsable. cbv zeta.
  destruct (Qt.exists_ _), (Qt.isDir _), (Qt.isWritable _);
    (left; repeat split; reflexivity) || (right; intros (? & ? & ?); discriminate).
Qed.

(** A folder that fails a check: one failure naming the folder, after the
    previous process has been killed and a new process object created. *)
Lemma startRecording_rejected (w : World) (s : Session) (perfOptions : list string)
    (outputPath : string) (recordOptions : list string) (workingDirectory : string) :
  ~ Spec.folderUsable w outputPath ->
  let r := startRecording w perfOptions outputPath recordOptions workingDirectory s in
  let p := nextObject s in
  (exists msg,
     In msg [folderDoesNotExist (Qt.dirPath outputPath);
             notAFolder (Qt.dirPath outputPath);
             folderNotWritable (Qt.dirPath outputPath)]
     /\ trace_of r = Spec.replaced s
                      ++ [ProcNew p; ProcSetMergedChannels p; Emit (recordingFailed msg)])
  /\ m_perfRecordProcess (state_of r) = Some p
  /\ nextObject (state_of r) = S p
  /\ m_outputPath (state_of r) = m_outputPath s
  /\ m_userTerminated (state_of r) = m_userTerminated s
  /\ connections (state_of r) = connections s
  /\ elevations (state_of r) = elevations s.
Proof.
  intros Hbad r p. subst r p.
  rewrite folderUsable_test in Hbad.
  destruct s as [[q|] path flag conns pend elevs next];
    unfold startRecording, Spec.replaced; step_m;
    (destruct (negb (Qt.exists_ _)) eqn:E1;
     [| destruct (negb (Qt.isDir _)) eqn:E2;
        [| destruct (negb (Qt.isWritable _)) eqn:E3; [| tauto]]]);
    step_m;
    (split; [eexists; split; [| reflexivity]; simpl; tauto | repeat split]).
Qed.

(** A usable folder: the command is assembled and the process started. *)
Lemma startRecording_accepted (w : World) (s : Session) (perfOptions : list string)
    (outputPath : string) (recordOptions : list string) (workingDirectory : string) :
  Spec.folderUsable w outputPath ->
  let r := startRecording w perfOptions outputPath recordOptions workingDirectory s in
  let p := nextObject s in
  let perfCommand := ["record"; "-o"; outputPath] ++ perfOptions ++ recordOptions in
  trace_of r = Spec.replaced s
               ++ [ProcNew p; ProcSetMergedChannels p]
               ++ (if Qt.isEmpty workingDirectory then []
                   else [ProcSetWorkingDirectory p workingDirectory])
               ++ [ProcStart p "perf" perfCommand]
  /\ m_perfRecordProcess (state_of r) = Some p
  /\ nextObject (state_of r) = S p
  /\ m_outputPath (state_of r) = outputPath
  /\ m_userTerminated (state_of r) = m_userTerminated s
  /\ connections (state_of r)
     = <[p := {| startedSlot := Some ("perf", perfCommand) |}]> (connections s)
  /\ elevations (state_of r) = elevations s.
Proof.
  intros Hok r p perfCommand. subst r p perfCommand.
  rewrite folderUsable_test in Hok. destruct Hok as (E1 & E2 & E3).
  destruct s as [[q|] path flag conns pend elevs next];
    unfold startRecording, Spec.replaced; step_m;
    rewrite E1, E2, E3;
    destruct workingDirectory as [| x wd]; step_m;
    (repeat split; try reflexivity; apply insert_insert_eq).
Qed.

Lemma record_not_elevated (w : World) (perfOptions : list string) (outputPath : string)
    (pid : string) (pids : list string) (s : Session) :
  record w perfOptions outputPath false (pid :: pids) s
  = startRecording w (perfOptions ++ ["--pid"; Qt.join "," (pid :: pids)]) outputPath [] "" s.
Proof. reflexivity. Qed.

Lemma spawns_app (t1 t2 : list Effect) : spawns (t1 ++ t2) = spawns t1 ++ spawns t2.
Proof. unfold spawns. apply omap_app. Qed.

Lemma signals_app (t1 t2 : list Effect) : signals (t1 ++ t2) = signals t1 ++ signals t2.
Proof. unfold signals. apply omap_app. Qed.

Lemma spawns_replaced (s : Session) : spawns (Spec.replaced s) = [].
Proof. unfold Spec.replaced. now destruct (m_perfRecordProcess s). Qed.

Lemma signals_replaced (s : Session) : signals (Spec.replaced s) = [].
Proof. unfold Spec.replaced. now destruct (m_perfRecordProcess s). Qed.

(** C2, as the code has it.  A request with an empty list of process ids
    emits one failure and changes nothing.  A request without elevation
    whose output folder does not exist, is not a folder or is not writable
    emits one failure that names the folder and starts no process; the output
    path, the stop flag, the connections and the elevation attempts stay as
    they were.  Before the folder is looked at, however, the process the
    session had is killed and handed to deferred deletion, and a new process
    object, never started, takes its place. *)
Theorem rejected_request_starts_nothing
    (w : World) (s : Session) (perfOptions : list string) (outputPath : string)
    (elevatePrivileges : bool) (pids : list string) :
  pids = [] \/ (elevatePrivileges = false /\ ~ Spec.folderUsable w outputPath) ->
  let r := record w perfOptions outputPath elevatePrivileges pids s in
  (exists reason, signals (trace_of r) = [recordingFailed reason])
  /\ spawns (trace_of r) = []
  /\ m_outputPath (state_of r) = m_outputPath s
  /\ m_userTerminated (state_of r) = m_userTerminated s
  /\ connections (state_of r) = connections s
  /\ elevations (state_of r) = elevations s
  /\ (pids = [] ->
      Spec.withoutSideEffects s r
      /\ trace_of r = [Emit (recordingFailed "Process does not exist.")])
  /\ (pids <> [] ->
      (exists reason,
         In reason [folderDoesNotExist (Qt.dirPath outputPath);
                    notAFolder (Qt.dirPath outputPath);
                    folderNotWritable (Qt.dirPath outputPath)]
         /\ trace_of r = Spec.replaced s
                          ++ [ProcNew (nextObject s);
                              ProcSetMergedChannels (nextObject s);
                              Emit (recordingFailed reason)])
      /\ m_perfRecordProcess (state_of r) = Some (nextObject s)).
Proof.
  intros Hreq r. subst r.
  destruct pids as [|pid pids].
  - unfold record. step_m.
    repeat split; try reflexivity; try congruence.
    + now exists "Process does not exist.".
    + intros e [<- | []]. eauto.
  - destruct Hreq as [Hnil | [-> Hbad]]; [discriminate |].
    rewrite record_not_elevated.
    pose proof (startRecording_rejected w s
                  (perfOptions ++ ["--pid"; Qt.join "," (pid :: pids)])
                  outputPath [] "" Hbad) as H.
    cbv zeta in H.
    destruct H as ((reason & Hin & Ht) & Hp & _ & Hpath & Hflag & Hconn & Helev).
    repeat split; try assumption; try discriminate.
    + exists reason. rewrite Ht, signals_app, signals_replaced. reflexivity.
    + rewrite Ht, spawns_app, spawns_replaced. reflexivity.
    + exists reason. split; assumption.
Qed.

Lemma nonexistent_folder_unusable :
  ~ Spec.folderUsable Sample.quiet "/nonexistent/out.data".
Proof. intros (H & _). vm_compute in H. discriminate. Qed.

Lemma rejected_request_starts_nothing_witness :
  let r := record Sample.quiet ["-F"; "99"] "/nonexistent/out.data" false ["1234"]
             Sample.recording in
  spawns (trace_of r) = [] /\ m_outputPath (state_of r) = "/tmp/out.data".
Proof.
  pose proof (rejected_request_starts_nothing Sample.quiet Sample.recording
                ["-F"; "99"] "/nonexistent/out.data" false ["1234"]
                (or_intror (conj eq_refl nonexistent_folder_unusable))) as H.
  cbv zeta in H. destruct H as (_ & Hs & Hp & _).
  split; [exact Hs | exact Hp].
Defined.

(** C2, as the specification has it, fails: a request rejected for its output
    folder does not leave the running child untouched.  Process [0] is
    recording; the rejected request kills it and puts process [1] in its
    place. *)
Lemma rejected_request_kills_running_child :
  let r := record Sample.quiet ["-F"; "99"] "/nonexistent/out.data" false ["1234"]
             Sample.recording in
  m_perfRecordProcess Sample.recording = Some 0
  /\ ~ Spec.folderUsable Sample.quiet "/nonexistent/out.data"
  /\ trace_of r = [ProcKill 0; ProcDeleteLater 0; ProcNew 1; ProcSetMergedChannels 1;
                   Emit (recordingFailed "Folder '/nonexistent' does not exist.")]
  /\ m_perfRecordProcess (state_of r) = Some 1
  /\ ~ Spec.withoutSideEffects Sample.recording r.
Proof.
  cbv zeta. split; [reflexivity |]. split; [exact nonexistent_folder_unusable |].
  split; [vm_compute; reflexivity |]. split; [vm_compute; reflexivity |].
  intros [_ Honly]. destruct (Honly (ProcKill 0)) as [sig Hsig].
  - vm_compute. left. reflexivity.
  - discriminate Hsig.
Qed.

(** ** Elevation attempts across the steps of the session *)

Import Invariant.

Lemma sameRequest_refl (e : Elevation) : sameRequest e e.
Proof. repeat split. Qed.

Lemma keeps_refl (s : Session) : fresh s -> keeps s s.
Proof.
  intros Hf. split; [assumption |]. split; [lia |].
  intros c e He. exists e. auto using sameRequest_refl.
Qed.

Lemma keeps_trans (s1 s2 s3 : Session) : keeps s1 s2 -> keeps s2 s3 -> keeps s1 s3.
Proof.
  intros (_ & Hn12 & H12) (Hf3 & Hn23 & H23).
  split; [assumption |]. split; [lia |].
  intros c e He.
  destruct (H12 c e He) as (e2 & He2 & (Ha & Hb & Hc & Hd) & Ht2).
  destruct (H23 c e2 He2) as (e3 & He3 & (Ha' & Hb' & Hc' & Hd') & Ht3).
  exists e3. split; [assumption |]. split; [| tauto].
  unfold sameRequest. repeat split; congruence.
Qed.

(** A step that leaves the elevation attempts alone and only hands out
    object numbers. *)
Lemma keeps_same_elevations (s s' : Session) :
  fresh s -> elevations s' = elevations s -> nextObject s <= nextObject s' -> keeps s s'.
Proof.
  intros Hf He Hn. split; [| split; [assumption |]].
  - intros c Hc. rewrite He in Hc. specialize (Hf c Hc). lia.
  - intros c e Hce. exists e. rewrite He. auto using sameRequest_refl.
Qed.

Lemma startRecording_elevations (w : World) (s : Session) (perfOptions : list string)
    (outputPath : string) (recordOptions : list string) (workingDirectory : string) :
  let r := startRecording w perfOptions outputPath recordOptions workingDirectory s in
  elevations (state_of r) = elevations s /\ nextObject (state_of r) = S (nextObject s).
Proof.
  cbv zeta.
  destruct (folderUsable_dec w outputPath) as [Hok | Hbad].
  - pose proof (startRecording_accepted w s perfOptions outputPath recordOptions
                  workingDirectory Hok) as H.
    cbv zeta in H. tauto.
  - pose proof (startRecording_rejected w s perfOptions outputPath recordOptions
                  workingDirectory Hbad) as H.
    cbv zeta in H. tauto.
Qed.

Lemma startRecording_keeps (w : World) (s : Session) (perfOptions : list string)
    (outputPath : string) (recordOptions : list string) (workingDirectory : string) :
  fresh s ->
  keeps s (state_of (startRecording w perfOptions outputPath recordOptions workingDirectory s)).
Proof.
  intros Hf.
  destruct (startRecording_elevations w s perfOptions outputPath recordOptions workingDirectory)
    as [He Hn].
  apply keeps_same_elevations; [assumption | assumption | lia].
Qed.

(** ** Polling the temporary file *)

(** What one run of [readSlot] does, branch by branch. *)
Lemma readSlot_run (w : World) (s : Session) (c : nat) (e : Elevation) :
  elevations s !! c = Some e ->
  let data := Qt.drop (readPos e) (tempFileContent w c) in
  let s1 := set_elevations
              (<[c := set_readPos (readPos e + String.length data) e]> (elevations s)) s in
  let start := startRecording w (perfOptions e) (outputPath e) (recordOptions e)
                 (workingDirectory e) s1 in
  let r := readSlot w c s in
  if Qt.isEmpty data then
    state_of r = s1 /\ trace_of r = []
  else if Qt.contains data privilegesElevated then
    state_of r = state_of start
    /\ trace_of r = [Emit (recordingOutput data); Emit (recordingOutput Qt.LF)] ++ trace_of start
  else if Qt.contains data errorMarker then
    state_of r = s1
    /\ trace_of r = [Emit (recordingFailed ("Failed to elevate privileges: " +:+ data))]
  else
    state_of r = s1 /\ trace_of r = [Emit (recordingOutput data)].
Proof.
  intros He. cbv zeta.
  destruct s as [proc path flag conns pend elevs next]. cbn [elevations] in He.
  unfold readSlot. step_m. rewrite He. step_m.
  destruct (Qt.isEmpty _); [split; reflexivity |].
  destruct (Qt.contains _ privilegesElevated); [split; reflexivity |].
  destruct (Qt.contains _ errorMarker); split; reflexivity.
Qed.

Lemma readSlot_keeps (w : World) (s : Session) (c : nat) (e : Elevation) :
  fresh s -> elevations s !! c = Some e -> keeps s (state_of (readSlot w c s)).
Proof.
  intros Hf He.
  pose proof (readSlot_run w s c e He) as Hrun. cbv zeta in Hrun.
  set (data := Qt.drop (readPos e) (tempFileContent w c)) in *.
  set (s1 := set_elevations _ s) in *.
  assert (Hf1 : fresh s1).
  { intros c' [e' Hc']. subst s1. cbn in Hc'.
    destruct (decide (c = c')) as [<- | Hne].
    - apply Hf. eauto.
    - rewrite lookup_insert_ne in Hc' by assumption. apply Hf. eauto. }
  assert (H1 : keeps s s1).
  { split; [assumption |]. split; [subst s1; cbn; lia |].
    intros c' e' Hc'. subst s1. cbn.
    destruct (decide (c = c')) as [<- | Hne].
    - rewrite lookup_insert_eq. eexists. split; [reflexivity |].
      assert (e' = e) as -> by congruence.
      split; [repeat split | trivial].
    - rewrite lookup_insert_ne by assumption. exists e'. auto using sameRequest_refl. }
  destruct (Qt.isEmpty data); [destruct Hrun as [-> _]; assumption |].
  destruct (Qt.contains data privilegesElevated).
  { destruct Hrun as [-> _]. eapply keeps_trans; [exact H1 |].
    now apply startRecording_keeps. }
  destruct (Qt.contains data errorMarker); destruct Hrun as [-> _]; assumption.
Qed.

Lemma onPercentChanged_keeps (s : Session) (c : nat) (step : Z) :
  fresh s -> keeps s (state_of (onPercentChanged c step s)).
Proof.
  intros Hf. unfold onPercentChanged.
  destruct (step =? 1)%Z; [now apply keeps_refl |].
  destruct (step =? 2)%Z; [| now apply keeps_refl].
  destruct s as [proc path flag conns pend elevs next].
  step_m. unfold keeps, fresh in *. cbn [elevations nextObject] in *.
  split; [| split; [lia |]].
  - intros c' [e' Hc']. apply Hf. rewrite lookup_alter in Hc'.
    destruct (decide (c = c')) as [<- | Hne]; [| eauto].
    destruct (elevs !! c); [eauto | discriminate].
  - intros c' e He. rewrite lookup_alter.
    destruct (decide (c = c')) as [<- | Hne].
    + rewrite He. cbn. eexists. split; [reflexivity |].
      split; [repeat split | cbn; eauto].
    + exists e. auto using sameRequest_refl.
Qed.

Lemma startRecordingElevated_keeps (w : World) (s : Session) (elevatePrivileges : bool)
    (perfOptions : list string) (outputPath : string) (recordOptions : list string)
    (workingDirectory : string) :
  fresh s ->
  keeps s (state_of (startRecordingElevated w elevatePrivileges perfOptions outputPath
                       recordOptions workingDirectory s)).
Proof.
  intros Hf. unfold startRecordingElevated.
  destruct elevatePrivileges; [| now apply startRecording_keeps].
  destruct (Qt.isEmpty _); [now apply keeps_refl |].
  destruct s as [proc path flag conns pend elevs next].
  step_m. unfold keeps, fresh in *. cbn [elevations nextObject] in *.
  split; [| split; [lia |]].
  - intros c' [e' Hc'].
    destruct (decide (next = c')) as [<- | Hne]; [lia |].
    rewrite lookup_insert_ne in Hc' by assumption.
    assert (c' < next) by (apply Hf; eauto). lia.
  - intros c' e He.
    assert (c' < next) by (apply Hf; eauto).
    rewrite lookup_insert_ne by lia.
    exists e. auto using sameRequest_refl.
Qed.

Lemma state_of_get {A} (k : Session -> M A) (s : Session) :
  state_of ((s' ← get; k s') s) = state_of (k s s).
Proof. reflexivity. Qed.

Lemma trace_of_get {A} (k : Session -> M A) (s : Session) :
  trace_of ((s' ← get; k s') s) = trace_of (k s s).
Proof. reflexivity. Qed.

Lemma call_keeps (w : World) (s : Session) (r : Request) :
  fresh s -> keeps s (state_of (call w r s)).
Proof.
  intros Hf. destruct r as [po op el pids | po op |]; unfold call.
  - unfold record. destruct pids; [now apply keeps_refl |].
    now apply startRecordingElevated_keeps.
  - unfold recordSystem. now apply startRecordingElevated_keeps.
  - unfold stopRecording.
    destruct s as [[q|] path flag conns pend elevs next]; step_m;
      apply keeps_same_elevations; auto.
Qed.

Lemma dispatch_keeps (w : World) (s : Session) (ev : Event) :
  fresh s -> keeps s (state_of (dispatch w ev s)).
Proof.
  intros Hf. unfold dispatch. rewrite state_of_get.
  destruct ev as [r | p | p error | p exitCode exitStatus | p | p | c step | c].
  - now apply call_keeps.
  - destruct (connections s !! p) as [[[[b cmd]|]]|]; now apply keeps_refl.
  - destruct (decide _); [| now apply keeps_refl].
    unfold onErrorOccurred. rewrite state_of_get.
    destruct (negb _); [| now apply keeps_refl].
    destruct (m_perfRecordProcess s); now apply keeps_refl.
  - destruct (decide _); [| now apply keeps_refl].
    unfold onFinished. rewrite state_of_get.
    destruct (_ && _); apply keeps_same_elevations; auto.
  - destruct (decide _); [| now apply keeps_refl].
    unfold onReadyRead. rewrite state_of_get.
    destruct (m_perfRecordProcess s); now apply keeps_refl.
  - destruct (decide _); [| now apply keeps_refl].
    apply keeps_same_elevations; auto.
  - destruct (decide _); [| now apply keeps_refl].
    now apply onPercentChanged_keeps.
  - destruct (elevations s !! c) as [e|] eqn:He; [| now apply keeps_refl].
    destruct e as [pos [ms|] po op ro wd]; [| now apply keeps_refl].
    now apply (readSlot_keeps w s c _ Hf He).
Qed.

Lemma run_keeps (evs : list (World * Event)) (s : Session) :
  fresh s -> keeps s (state_of (run evs s)).
Proof.
  revert s. induction evs as [| [w ev] evs IH]; intros s Hf.
  - now apply keeps_refl.
  - cbn [run].
    pose proof (dispatch_keeps w s ev Hf) as H1.
    change (keeps s (state_of (run evs (state_of (dispatch w ev s))))).
    eapply keeps_trans; [exact H1 |].
    apply IH. apply H1.
Qed.

Lemma fresh_initial : fresh initial.
Proof. intros c [e He]. cbn in He. rewrite lookup_empty in He. discriminate. Qed.

(** Every state the session reaches from its construction is [fresh]. *)
Lemma fresh_reachable (evs : list (World * Event)) : fresh (state_of (run evs initial)).
Proof. apply (run_keeps evs initial fresh_initial). Qed.

(** A timeout of a running timer is one run of [readSlot]. *)
Lemma dispatch_timeout (w : World) (s : Session) (c : nat) (e : Elevation) :
  elevations s !! c = Some e -> is_Some (readTimer e) ->
  state_of (dispatch w (TimerTimeout c) s) = state_of (readSlot w c s)
  /\ trace_of (dispatch w (TimerTimeout c) s) = trace_of (readSlot w c s).
Proof.
  intros He [ms Hms]. unfold dispatch. rewrite state_of_get, trace_of_get, He.
  destruct e as [pos timer po op ro wd]. cbn in Hms. subst timer.
  split; reflexivity.
Qed.

(** The request of an elevated start is what [readSlot] captures. *)
Lemma startRecordingElevated_captures (w : World) (s : Session)
    (perfOptions : list string) (outputPath : string) (recordOptions : list string)
    (workingDirectory : string) :
  Qt.isEmpty (findLibexecBinary w "elevate_perf_privileges.sh") = false ->
  let r := startRecordingElevated w true perfOptions outputPath recordOptions
             workingDirectory s in
  elevations (state_of r) !! nextObject s
  = Some {| readPos := 0; readTimer := None;
            PerfRecord.perfOptions := perfOptions;
            PerfRecord.outputPath := outputPath;
            PerfRecord.recordOptions := recordOptions;
            PerfRecord.workingDirectory := workingDirectory |}
  /\ spawns (trace_of r) = []
  /\ signals (trace_of r) = [].
Proof.
  intros Hscript. cbv zeta. unfold startRecordingElevated. rewrite Hscript.
  destruct s as [proc path flag conns pend elevs next]. step_m.
  split; [apply lookup_insert_eq | split; reflexivity].
Qed.

Lemma marker_not_in_empty (data : string) :
  Qt.contains data privilegesElevated = true -> Qt.isEmpty data = false.
Proof. destruct data; [vm_compute; discriminate | reflexivity]. Qed.

(** C3, as the code has it.  Observing a marker does not stop the polling:
    no statement of the program stops [readTimer] once the helper's second
    progress step has started it.  A timeout of the running timer is one run
    of [readSlot]; after it, whatever it has read and whatever events follow,
    the timer of that temporary file still runs and [readSlot] still holds the
    request it captured, so further timeouts poll the file again.  A poll that
    finds nothing new emits nothing. *)
Theorem polling_never_stops (w : World) (s : Session) (c : nat) (e : Elevation) :
  fresh s ->
  elevations s !! c = Some e ->
  is_Some (readTimer e) ->
  let r := dispatch w (TimerTimeout c) s in
  (state_of r = state_of (readSlot w c s) /\ trace_of r = trace_of (readSlot w c s))
  /\ (forall evs : list (World * Event),
        exists e', elevations (state_of (run evs (state_of r))) !! c = Some e'
                   /\ is_Some (readTimer e')
                   /\ sameRequest e e')
  /\ ~ Spec.pollingStopped (state_of r) c
  /\ (Qt.drop (readPos e) (tempFileContent w c) = "" -> trace_of r = []).
Proof.
  intros Hf He Ht r.
  pose proof (dispatch_timeout w s c e He Ht) as [Hst Htr].
  pose proof (dispatch_keeps w s (TimerTimeout c) Hf) as Hk. fold r in Hk, Hst, Htr.
  assert (Hafter : forall evs : list (World * Event),
             exists e', elevations (state_of (run evs (state_of r))) !! c = Some e'
                        /\ is_Some (readTimer e') /\ sameRequest e e').
  { intros evs.
    assert (Hk2 : keeps s (state_of (run evs (state_of r)))).
    { eapply keeps_trans; [exact Hk |]. apply run_keeps. apply Hk. }
    destruct Hk2 as (_ & _ & Hall).
    destruct (Hall c e He) as (e' & He' & Hsame & Htimer). eauto. }
  split; [split; assumption |]. split; [exact Hafter |]. split.
  - intros Hstop. destruct (Hafter []) as (e' & He' & [ms Hms] & _).
    cbn in He'. specialize (Hstop e' He'). congruence.
  - intros Hnone. rewrite Htr.
    pose proof (readSlot_run w s c e He) as Hrun. cbv zeta in Hrun.
    rewrite Hnone in Hrun. cbn in Hrun. apply Hrun.
Qed.

Lemma elevating_lookup (outputPath : string) :
  elevations (Sample.elevating outputPath) !! 0
  = Some {| readPos := 0; readTimer := Some 250%Z;
            perfOptions := ["-F"; "99"; "--pid"; "1234"];
            PerfRecord.outputPath := outputPath;
            recordOptions := []; workingDirectory := "" |}.
Proof. reflexivity. Qed.

Lemma polling_never_stops_witness :
  let r := dispatch Sample.elevated (TimerTimeout 0) (Sample.elevating "/tmp/out.data") in
  ~ Spec.pollingStopped (state_of r) 0.
Proof.
  refine (proj1 (proj2 (proj2
            (polling_never_stops Sample.elevated (Sample.elevating "/tmp/out.data") 0 _
               (fresh_reachable _) (elevating_lookup "/tmp/out.data") _)))).
  exists 250%Z. reflexivity.
Defined.

(** C3, as the specification has it, fails.  The first poll reads the success
    marker; the timer is still running after it, and the next timeout polls
    the file again and reports what the script wrote in the meantime. *)
Lemma poll_after_marker :
  let r1 := dispatch Sample.elevated (TimerTimeout 0) (Sample.elevating "/tmp/out.data") in
  let r2 := dispatch Sample.writtenOn (TimerTimeout 0) (state_of r1) in
  Qt.contains (tempFileContent Sample.elevated 0) privilegesElevated = true
  /\ signals (trace_of r1)
     = [recordingOutput Sample.elevatedText; recordingOutput Qt.LF]
  /\ ~ Spec.pollingStopped (state_of r1) 0
  /\ trace_of r2 = [Emit (recordingFailed "Failed to elevate privileges: Error: late")].
Proof.
  cbv zeta. split; [vm_compute; reflexivity |]. split; [vm_compute; reflexivity |].
  split; [| vm_compute; reflexivity].
  intros Hstop.
  specialize (Hstop {| readPos := 42; readTimer := Some 250%Z;
                       perfOptions := ["-F"; "99"; "--pid"; "1234"];
                       outputPath := "/tmp/out.data";
                       recordOptions := []; workingDirectory := "" |}).
  discriminate Hstop. vm_compute. reflexivity.
Qed.

(** ** Elevation that succeeds *)

(** C4, as the code has it.  After an elevated start with the request
    [perfOptions], [outputPath], [recordOptions], [workingDirectory], and
    whatever events came in between, a poll that reads the success marker
    first forwards what it read, then a line feed, as output, and then runs
    the start without elevation on that same request.  When the folder of the
    output path is usable this starts the profiler exactly once, as
    [perf record -o outputPath perfOptions recordOptions] in the working
    directory asked for; when it is not, a failure follows the forwarded
    output and no process is started. *)
Theorem elevated_poll_starts_recording
    (w0 w : World) (s0 : Session) (perfOptions : list string) (outputPath : string)
    (recordOptions : list string) (workingDirectory : string)
    (evs : list (World * Event)) (e : Elevation) :
  fresh s0 ->
  Qt.isEmpty (findLibexecBinary w0 "elevate_perf_privileges.sh") = false ->
  let c := nextObject s0 in
  let s1 := state_of (startRecordingElevated w0 true perfOptions outputPath
                        recordOptions workingDirectory s0) in
  let s := state_of (run evs s1) in
  elevations s !! c = Some e ->
  is_Some (readTimer e) ->
  let data := Qt.drop (readPos e) (tempFileContent w c) in
  Qt.contains data privilegesElevated = true ->
  let t := trace_of (dispatch w (TimerTimeout c) s) in
  let p := nextObject s in
  let perfCommand := ["record"; "-o"; outputPath] ++ perfOptions ++ recordOptions in
  (Spec.folderUsable w outputPath ->
     t = [Emit (recordingOutput data); Emit (recordingOutput Qt.LF)]
         ++ Spec.replaced s
         ++ [ProcNew p; ProcSetMergedChannels p]
         ++ (if Qt.isEmpty workingDirectory then []
             else [ProcSetWorkingDirectory p workingDirectory])
         ++ [ProcStart p "perf" perfCommand]
     /\ spawns t = [(p, "perf", perfCommand)])
  /\ (~ Spec.folderUsable w outputPath ->
        spawns t = []
        /\ exists reason,
             signals t = [recordingOutput data; recordingOutput Qt.LF; recordingFailed reason]).
Proof.
  intros Hf Hscript c s1 s He Ht data Hmarker t p perfCommand.
  (* the request is still the one captured *)
  destruct (startRecordingElevated_captures w0 s0 perfOptions outputPath recordOptions
              workingDirectory Hscript) as (Hcap & _). fold s1 c in Hcap.
  assert (Hf1 : fresh s1)
    by apply (startRecordingElevated_keeps w0 s0 true perfOptions outputPath
                recordOptions workingDirectory Hf).
  destruct (run_keeps evs s1 Hf1) as (_ & _ & Hall). fold s in Hall.
  destruct (Hall c _ Hcap) as (e' & He' & (Hpo & Hop & Hro & Hwd) & _).
  assert (e' = e) as -> by congruence. cbn in Hpo, Hop, Hro, Hwd.
  (* the poll *)
  destruct (dispatch_timeout w s c e He Ht) as [_ Htr]. fold t in Htr.
  pose proof (readSlot_run w s c e He) as Hrun. cbv zeta in Hrun. fold data in Hrun.
  rewrite (marker_not_in_empty data Hmarker), Hmarker, <- Htr in Hrun.
  destruct Hrun as [_ Hrun]. rewrite Hpo, Hop, Hro, Hwd in Hrun.
  set (s' := set_elevations _ s) in Hrun.
  split.
  - intros Hok.
    pose proof (startRecording_accepted w s' perfOptions outputPath recordOptions
                  workingDirectory Hok) as (Hstart & _).
    change (Spec.replaced s') with (Spec.replaced s) in Hstart.
    change (nextObject s') with p in Hstart.
    fold perfCommand in Hstart.
    rewrite Hstart in Hrun. split; [exact Hrun |].
    rewrite Hrun, !spawns_app, spawns_replaced.
    destruct (Qt.isEmpty workingDirectory); reflexivity.
  - intros Hbad.
    pose proof (startRecording_rejected w s' perfOptions outputPath recordOptions
                  workingDirectory Hbad) as ((reason & _ & Hstart) & _).
    change (Spec.replaced s') with (Spec.replaced s) in Hstart.
    rewrite Hstart in Hrun. rewrite Hrun. split.
    + rewrite !spawns_app, spawns_replaced. reflexivity.
    + exists reason. rewrite !signals_app, signals_replaced. reflexivity.
Qed.

Lemma tmp_usable : Spec.folderUsable Sample.elevated "/tmp/out.data".
Proof. repeat split. Qed.

Lemma elevated_poll_starts_recording_witness :
  spawns (trace_of (dispatch Sample.elevated (TimerTimeout 0)
                      (Sample.elevating "/tmp/out.data")))
  = [(1, "perf", ["record"; "-o"; "/tmp/out.data"; "-F"; "99"; "--pid"; "1234"])].
Proof.
  refine (proj2 (proj1 (elevated_poll_starts_recording Sample.quiet Sample.elevated initial
                          ["-F"; "99"; "--pid"; "1234"] "/tmp/out.data" [] ""
                          [(Sample.quiet, JobPercentChanged 0 2)] _
                          fresh_initial _ _ _ _) tmp_usable)).
  - reflexivity.
  - reflexivity.
  - exists 250%Z. reflexivity.
  - vm_compute. reflexivity.
Defined.

(** C4, as the specification has it, fails.  The poll reads the success
    marker, but the folder of the requested output path does not exist: the
    output is forwarded, the start fails, and no profiler process is
    started. *)
Lemma marker_with_missing_folder_starts_nothing :
  let s := Sample.elevating "/nonexistent/out.data" in
  let t := trace_of (dispatch Sample.elevated (TimerTimeout 0) s) in
  Qt.contains (Qt.drop 0 (tempFileContent Sample.elevated 0)) privilegesElevated = true
  /\ spawns t = []
  /\ signals t = [recordingOutput Sample.elevatedText; recordingOutput Qt.LF;
                  recordingFailed "Folder '/nonexistent' does not exist."].
Proof. cbv zeta. repeat split; vm_compute; reflexivity. Qed.

(** ** The helper's progress steps *)

Lemma handle_step_one (st : AuthHelper.State) (ev : AuthHelper.Event) :
  In (AuthHelper.ProgressStep 1) (snd (AuthHelper.handle st ev))
  <-> (exists error, ev = AuthHelper.errorOccurred error)
      /\ AuthHelper.errorOccurredConnected st = true.
Proof.
  destruct ev as [| error | exitCode exitStatus |]; cbn.
  - split; [intros [H | []]; discriminate H | intros [[error H] _]; discriminate H].
  - destruct (AuthHelper.errorOccurredConnected st); cbn.
    + split; [eauto | auto].
    + split; [intros [] | intros [_ H]; discriminate H].
  - split; [intros [] | intros [[error H] _]; discriminate H].
  - split; [intros [H | [H | []]]; discriminate H | intros [[error H] _]; discriminate H].
Qed.

Lemma handle_step_two (st : AuthHelper.State) (ev : AuthHelper.Event) :
  In (AuthHelper.ProgressStep 2) (snd (AuthHelper.handle st ev)) <-> ev = AuthHelper.started.
Proof.
  destruct ev as [| error | exitCode exitStatus |]; cbn.
  - split; auto.
  - destruct (AuthHelper.errorOccurredConnected st); cbn.
    + split; [intros [H | [H | []]]; discriminate H | discriminate].
    + split; [intros [] | discriminate].
  - split; [intros [] | discriminate].
  - split; [intros [H | [H | []]]; discriminate H | discriminate].
Qed.

(** C5, as the code has it.  The helper reports progress step 1 exactly when
    the script's process signals an error, of whatever kind, while the error
    lambda is still connected; the session then emits a failure, changes
    nothing and starts no process.  The helper reports step 2 exactly when the
    script's process has started; the session then starts the timer of the
    temporary file with an interval of 250 ms, and from then on a timeout
    polls the file. *)
Theorem progress_steps
    (st : AuthHelper.State) (ev : AuthHelper.Event)
    (w : World) (s : Session) (c : nat) (e : Elevation) :
  elevations s !! c = Some e ->
  (In (AuthHelper.ProgressStep 1) (snd (AuthHelper.handle st ev))
   <-> (exists error, ev = AuthHelper.errorOccurred error)
       /\ AuthHelper.errorOccurredConnected st = true)
  /\ (In (AuthHelper.ProgressStep 2) (snd (AuthHelper.handle st ev))
      <-> ev = AuthHelper.started)
  /\ (let r := dispatch w (JobPercentChanged c 1) s in
      state_of r = s
      /\ trace_of r = [Emit (recordingFailed "Failed to elevate privileges.")])
  /\ (let r := dispatch w (JobPercentChanged c 2) s in
      trace_of r = [TimerStart c 250]
      /\ elevations (state_of r) !! c = Some (set_readTimer (Some 250%Z) e)
      /\ forall w' : World,
           state_of (dispatch w' (TimerTimeout c) (state_of r))
           = state_of (readSlot w' c (state_of r))
           /\ trace_of (dispatch w' (TimerTimeout c) (state_of r))
              = trace_of (readSlot w' c (state_of r))).
Proof.
  intros He.
  split; [apply handle_step_one |]. split; [apply handle_step_two |].
  assert (Hsome : is_Some (elevations s !! c)) by eauto.
  split.
  - cbv zeta. unfold dispatch. rewrite state_of_get, trace_of_get.
    destruct (decide _) as [_ | Hn]; [| contradiction].
    split; reflexivity.
  - cbv zeta.
    assert (Hr : state_of (dispatch w (JobPercentChanged c 2) s)
                 = set_elevations (alter (set_readTimer (Some 250%Z)) c (elevations s)) s
                 /\ trace_of (dispatch w (JobPercentChanged c 2) s) = [TimerStart c 250]).
    { unfold dispatch. rewrite state_of_get, trace_of_get.
      destruct (decide _) as [_ | Hn]; [| contradiction].
      split; reflexivity. }
    destruct Hr as [Hst Htr].
    assert (Hlook : elevations (state_of (dispatch w (JobPercentChanged c 2) s)) !! c
                    = Some (set_readTimer (Some 250%Z) e)).
    { rewrite Hst. cbn. rewrite lookup_alter_eq, He. reflexivity. }
    split; [exact Htr |]. split; [exact Hlook |].
    intros w'. apply (dispatch_timeout w' _ c _ Hlook). cbn. eauto.
Qed.

Lemma progress_steps_witness :
  let r := dispatch Sample.quiet (JobPercentChanged 0 2) (Sample.elevating "/tmp/out.data") in
  trace_of r = [TimerStart 0 250]
  /\ elevations (state_of r) !! 0
     = Some (set_readTimer (Some 250%Z)
               {| readPos := 0; readTimer := Some 250%Z;
                  perfOptions := ["-F"; "99"; "--pid"; "1234"];
                  outputPath := "/tmp/out.data";
                  recordOptions := []; workingDirectory := "" |}).
Proof.
  pose proof (progress_steps AuthHelper.armed AuthHelper.started Sample.quiet
                (Sample.elevating "/tmp/out.data") 0 _
                (elevating_lookup "/tmp/out.data")) as (_ & _ & _ & H).
  cbv zeta in H. destruct H as (Ht & He & _).
  split; [exact Ht | exact He].
Defined.

(** C5, as the specification has it, fails: step 1 is not tied to an error of
    starting the script.  The script starts and then crashes, a second later
    is not yet over: the helper reports step 2 and then step 1, although the
    error is [Crashed] and not [FailedToStart]. *)
Lemma crash_reports_step_one :
  AuthHelper.progressSteps
    (snd (AuthHelper.elevate Sample.helperArgs
            (AuthHelper.delivered (AuthHelper.CrashesInTime 11))))
  = [2%Z; 1%Z]
  /\ In (AuthHelper.ProgressStep 1)
        (snd (AuthHelper.handle AuthHelper.armed (AuthHelper.errorOccurred Qt.Crashed)))
  /\ AuthHelper.errorOccurred Qt.Crashed <> AuthHelper.errorOccurred Qt.FailedToStart
  /\ ~ (forall st ev,
          In (AuthHelper.ProgressStep 1) (snd (AuthHelper.handle st ev))
          <-> ev = AuthHelper.errorOccurred Qt.FailedToStart).
Proof.
  split; [vm_compute; reflexivity |].
  split; [cbn; auto |].
  split; [discriminate |].
  intros H.
  assert (Hin : In (AuthHelper.ProgressStep 1)
                   (snd (AuthHelper.handle AuthHelper.armed
                           (AuthHelper.errorOccurred Qt.Crashed)))) by (cbn; auto).
  apply H in Hin. discriminate Hin.
Qed.

(** ** The return of the privileged action *)

Lemma finished_in_tail (ev : AuthHelper.Event) (evs : list AuthHelper.Event) :
  (forall exitCode exitStatus, ev <> AuthHelper.finished exitCode exitStatus) ->
  (exists exitCode exitStatus, In (AuthHelper.finished exitCode exitStatus) evs)
  <-> (exists exitCode exitStatus, In (AuthHelper.finished exitCode exitStatus) (ev :: evs)).
Proof.
  intros Hne. split; intros (x & y & H); exists x, y.
  - now right.
  - destruct H as [H | H]; [now destruct (Hne x y) | exact H].
Qed.

Lemma exec_returns (st : AuthHelper.State) (evs : list AuthHelper.Event) :
  AuthHelper.loopQuit st = false ->
  (is_Some (fst (AuthHelper.exec st evs))
   <-> exists exitCode exitStatus, In (AuthHelper.finished exitCode exitStatus) evs).
Proof.
  revert st. induction evs as [| ev evs IH]; intros st Hrun.
  - cbn. split; [intros [x Hx]; discriminate Hx | intros (? & ? & [])].
  - cbn [AuthHelper.exec].
    destruct ev as [| error | exitCode exitStatus |].
    + cbn [AuthHelper.handle]. rewrite Hrun.
      specialize (IH st Hrun). destruct (AuthHelper.exec st evs) as [r t].
      etransitivity; [exact IH |]. now apply finished_in_tail.
    + assert (Hh : fst (AuthHelper.handle st (AuthHelper.errorOccurred error)) = st)
        by (cbn; now destruct (AuthHelper.errorOccurredConnected st)).
      destruct (AuthHelper.handle st (AuthHelper.errorOccurred error)) as [st' t'].
      cbn in Hh. subst st'. rewrite Hrun.
      specialize (IH st Hrun). destruct (AuthHelper.exec st evs) as [r t].
      etransitivity; [exact IH |]. now apply finished_in_tail.
    + cbn. split; [intros _; exists exitCode, exitStatus; now left | eauto].
    + cbn [AuthHelper.handle AuthHelper.loopQuit]. rewrite Hrun.
      specialize (IH {| AuthHelper.errorOccurredConnected := false;
                        AuthHelper.loopQuit := false |} eq_refl).
      destruct (AuthHelper.exec _ evs) as [r t].
      etransitivity; [exact IH |]. now apply finished_in_tail.
Qed.

Lemma exec_never_kills (st : AuthHelper.State) (evs : list AuthHelper.Event) :
  ~ In AuthHelper.ProcKill (snd (AuthHelper.exec st evs)).
Proof.
  revert st. induction evs as [| ev evs IH]; intros st; [intros [] |].
  cbn [AuthHelper.exec].
  assert (Hh : ~ In AuthHelper.ProcKill (snd (AuthHelper.handle st ev))).
  { destruct ev; cbn; try destruct (AuthHelper.errorOccurredConnected st); cbn;
      intuition discriminate. }
  destruct (AuthHelper.handle st ev) as [st' t'].
  destruct (AuthHelper.loopQuit st'); [exact Hh |].
  specialize (IH st'). destruct (AuthHelper.exec st' evs) as [r t]. cbn in *.
  rewrite in_app_iff. tauto.
Qed.

(** C6, as the code has it.  The only reply [elevate] gives is the generic
    success reply, and it gives it exactly when the [finished] signal of the
    script's process reaches its loop.  A watchdog of one second disconnects
    the error lambda, so that later errors report no progress step, and asks
    the process to terminate; the helper never kills it. *)
Theorem elevate_reply (args : gmap string string) (evs : list AuthHelper.Event) :
  let r := AuthHelper.elevate args evs in
  (fst r = Some AuthHelper.SuccessReply
   <-> exists exitCode exitStatus, In (AuthHelper.finished exitCode exitStatus) evs)
  /\ (fst r = None \/ fst r = Some AuthHelper.SuccessReply)
  /\ (exists t, snd r = AuthHelper.SingleShot 1000
                        :: AuthHelper.ProcStart (default "" (args !! "script"))
                                                [default "" (args !! "output")]
                        :: t)
  /\ (forall st,
        AuthHelper.handle st AuthHelper.watchdog
        = ({| AuthHelper.errorOccurredConnected := false;
              AuthHelper.loopQuit := AuthHelper.loopQuit st |},
           [AuthHelper.DisconnectErrorOccurred; AuthHelper.ProcTerminate]))
  /\ (forall st error,
        snd (AuthHelper.handle (fst (AuthHelper.handle st AuthHelper.watchdog))
               (AuthHelper.errorOccurred error)) = [])
  /\ ~ In AuthHelper.ProcKill (snd r).
Proof.
  cbv zeta. unfold AuthHelper.elevate.
  pose proof (exec_returns AuthHelper.armed evs eq_refl) as Hret.
  pose proof (exec_never_kills AuthHelper.armed evs) as Hkill.
  destruct (AuthHelper.exec AuthHelper.armed evs) as [[st|] t]; cbn in *.
  - split; [split; [intros _; apply Hret; eauto | reflexivity] |].
    split; [now right |]. split; [eauto |]. split; [reflexivity |].
    split; [reflexivity |]. intuition discriminate.
  - split; [split; [discriminate | intros H; apply Hret in H; destruct H; discriminate] |].
    split; [now left |]. split; [eauto |]. split; [reflexivity |].
    split; [reflexivity |]. intuition discriminate.
Qed.

(** C6, as the specification has it, fails: the watchdog asks, it does not
    force, and the call returns only when the script's process is gone.  A
    script that handles the request and keeps running leaves the call in its
    loop. *)
Lemma running_script_blocks_elevate :
  AuthHelper.elevate Sample.helperArgs (AuthHelper.delivered AuthHelper.KeepsRunning)
  = (None,
     [AuthHelper.SingleShot 1000;
      AuthHelper.ProcStart "/usr/lib/libexec/elevate_perf_privileges.sh" ["/tmp/hotspot.Xq3f1a"];
      AuthHelper.ProgressStep 2;
      AuthHelper.DisconnectErrorOccurred;
      AuthHelper.ProcTerminate])
  /\ ~ (forall b : AuthHelper.Script,
          fst (AuthHelper.elevate Sample.helperArgs (AuthHelper.delivered b))
          = Some AuthHelper.SuccessReply).
Proof.
  split; [vm_compute; reflexivity |].
  intros H. specialize (H AuthHelper.KeepsRunning). vm_compute in H. discriminate H.
Qed.

(** ** Stopping *)

Lemma stopRecording_run (s : Session) :
  state_of (stopRecording s) = set_userTerminated true s
  /\ trace_of (stopRecording s)
     = match m_perfRecordProcess s with
       | Some p => [ProcTerminate p]
       | None => []
       end.
Proof.
  destruct s as [[q|] path flag conns pend elevs next]; unfold stopRecording; step_m;
    split; reflexivity.
Qed.

Lemma dispatch_finished (w : World) (s : Session) (p : nat)
    (exitCode : Z) (exitStatus : Qt.ExitStatus) :
  is_Some (connections s !! p) ->
  trace_of (dispatch w (ProcFinished p exitCode exitStatus) s)
  = trace_of (onFinished w exitCode exitStatus s)
  /\ state_of (dispatch w (ProcFinished p exitCode exitStatus) s)
     = state_of (onFinished w exitCode exitStatus s).
Proof.
  intros Hconn. unfold dispatch. rewrite state_of_get, trace_of_get.
  destruct (decide _) as [_ | Hn]; [split; reflexivity | contradiction].
Qed.

(** C7.  Calling [stopRecording] twice leaves the session as calling it once
    does: the second call changes nothing in the session, emits no signal, and
    only repeats to the same child the request to terminate that the first
    call made.  After a stop, an exit of the child with the exit code of the
    termination signal, the output file existing, is reported as
    [recordingFinished] and not as a failure. *)
Theorem stop_twice_as_once (w : World) (s : Session) (p : nat) (exitStatus : Qt.ExitStatus) :
  let once := stopRecording s in
  let twice := stopRecording (state_of once) in
  state_of twice = state_of once
  /\ trace_of twice = trace_of once
  /\ signals (trace_of once) = []
  /\ (forall x, In x (trace_of once ++ trace_of twice) <-> In x (trace_of once))
  /\ m_userTerminated (state_of once) = true
  /\ (is_Some (connections s !! p) ->
      Qt.exists_ (fileInfo w (m_outputPath s)) = true ->
      trace_of (dispatch w (ProcFinished p SIGTERM exitStatus) (state_of once))
      = [Emit (recordingFinished (m_outputPath s))]
      /\ trace_of (dispatch w (ProcFinished p SIGTERM exitStatus) (state_of twice))
         = [Emit (recordingFinished (m_outputPath s))]).
Proof.
  intros once twice.
  destruct (stopRecording_run s) as [Hs1 Ht1]. fold once in Hs1, Ht1.
  destruct (stopRecording_run (state_of once)) as [Hs2 Ht2]. fold twice in Hs2, Ht2.
  assert (Hsame : state_of twice = state_of once).
  { rewrite Hs2, Hs1. reflexivity. }
  assert (Htrace : trace_of twice = trace_of once).
  { rewrite Ht2, Ht1, Hs1. reflexivity. }
  split; [exact Hsame |]. split; [exact Htrace |].
  split; [rewrite Ht1; now destruct (m_perfRecordProcess s) |].
  split; [rewrite Htrace; intros x; rewrite in_app_iff; tauto |].
  split; [rewrite Hs1; reflexivity |].
  intros Hconn Hexists.
  assert (Hfin : trace_of (dispatch w (ProcFinished p SIGTERM exitStatus) (state_of once))
                 = [Emit (recordingFinished (m_outputPath s))]).
  { rewrite Hs1.
    destruct (dispatch_finished w (set_userTerminated true s) p SIGTERM exitStatus Hconn)
      as [-> _].
    rewrite onFinished_trace. cbn [m_outputPath m_userTerminated set_userTerminated].
    rewrite Hexists. reflexivity. }
  split; [exact Hfin |]. rewrite Hsame. exact Hfin.
Qed.

Lemma stop_twice_as_once_witness :
  let once := stopRecording Sample.recording in
  let twice := stopRecording (state_of once) in
  state_of twice = state_of once
  /\ trace_of (dispatch Sample.quiet (ProcFinished 0 SIGTERM Qt.CrashExit) (state_of twice))
     = [Emit (recordingFinished "/tmp/out.data")].
Proof.
  pose proof (stop_twice_as_once Sample.quiet Sample.recording 0 Qt.CrashExit) as H.
  cbv zeta in H.
  destruct H as (Hsame & _ & _ & _ & _ & Hfin).
  split; [exact Hsame |].
  apply Hfin.
  - exists {| startedSlot := Some ("perf", ["record"; "-o"; "/tmp/out.data"]) |}.
    vm_compute. reflexivity.
  - reflexivity.
Defined.

(** ** The scenario of a recording by process id *)

(** C8.  For the request [record(["-F","99"], "/tmp/out.data", false,
    ["1234"])] every process the session starts is
    [perf record -o /tmp/out.data -F 99 --pid 1234].  When [/tmp] is a usable
    folder, exactly one process is started; its start is announced with that
    binary and command, and its exit with code 0, [/tmp/out.data] existing,
    is reported as [recordingFinished("/tmp/out.data")]. *)
Theorem scenario_record_pid (w : World) (s : Session) :
  let r := record w ["-F"; "99"] "/tmp/out.data" false ["1234"] s in
  let p := nextObject s in
  let perfCommand := ["record"; "-o"; "/tmp/out.data"; "-F"; "99"; "--pid"; "1234"] in
  "perf " +:+ Qt.join " " perfCommand = "perf record -o /tmp/out.data -F 99 --pid 1234"
  /\ (forall x, In x (spawns (trace_of r)) -> x = (p, "perf", perfCommand))
  /\ (Spec.folderUsable w "/tmp/out.data" ->
      trace_of r = Spec.replaced s
                   ++ [ProcNew p; ProcSetMergedChannels p; ProcStart p "perf" perfCommand]
      /\ spawns (trace_of r) = [(p, "perf", perfCommand)]
      /\ (forall w' : World,
            trace_of (dispatch w' (ProcStarted p) (state_of r))
            = [Emit (recordingStarted "perf" perfCommand)])
      /\ (forall (w' : World) (exitStatus : Qt.ExitStatus),
            Qt.exists_ (fileInfo w' "/tmp/out.data") = true ->
            trace_of (dispatch w' (ProcFinished p 0 exitStatus) (state_of r))
            = [Emit (recordingFinished "/tmp/out.data")])).
Proof.
  intros r p perfCommand. subst r.
  rewrite record_not_elevated.
  split; [reflexivity |].
  assert (Hok : Spec.folderUsable w "/tmp/out.data" ->
                trace_of (startRecording w (["-F"; "99"] ++ ["--pid"; Qt.join "," ["1234"]])
                            "/tmp/out.data" [] "" s)
                = Spec.replaced s
                  ++ [ProcNew p; ProcSetMergedChannels p; ProcStart p "perf" perfCommand]).
  { intros Hok.
    destruct (startRecording_accepted w s (["-F"; "99"] ++ ["--pid"; Qt.join "," ["1234"]])
                "/tmp/out.data" [] "" Hok) as (Ht & _).
    exact Ht. }
  split.
  - intros x Hx.
    destruct (folderUsable_dec w "/tmp/out.data") as [Husable | Hbad].
    + rewrite (Hok Husable), spawns_app, spawns_replaced in Hx.
      destruct Hx as [<- | []]. reflexivity.
    + destruct (startRecording_rejected w s (["-F"; "99"] ++ ["--pid"; Qt.join "," ["1234"]])
                  "/tmp/out.data" [] "" Hbad) as ((reason & _ & Ht) & _).
      rewrite Ht, spawns_app, spawns_replaced in Hx. destruct Hx.
  - intros Husable.
    destruct (startRecording_accepted w s (["-F"; "99"] ++ ["--pid"; Qt.join "," ["1234"]])
                "/tmp/out.data" [] "" Husable)
      as (Ht & _ & _ & Hpath & Hflag & Hconn & _).
    fold p in Hconn.
    set (r := startRecording w _ "/tmp/out.data" [] "" s) in *.
    assert (Hlook : connections (state_of r) !! p
                    = Some {| startedSlot := Some ("perf", perfCommand) |}).
    { rewrite Hconn. apply lookup_insert_eq. }
    split; [exact Ht |].
    split; [rewrite Ht, spawns_app, spawns_replaced; reflexivity |].
    split.
    + intros w'. unfold dispatch. rewrite trace_of_get, Hlook. reflexivity.
    + intros w' exitStatus Hexists.
      destruct (dispatch_finished w' (state_of r) p 0 exitStatus) as [-> _]; [eauto |].
      rewrite onFinished_trace, Hpath, Hexists. reflexivity.
Qed.

Lemma scenario_record_pid_witness :
  let r := record Sample.quiet ["-F"; "99"] "/tmp/out.data" false ["1234"] initial in
  spawns (trace_of r)
  = [(0, "perf", ["record"; "-o"; "/tmp/out.data"; "-F"; "99"; "--pid"; "1234"])]
  /\ trace_of (dispatch Sample.quiet (ProcFinished 0 0 Qt.NormalExit) (state_of r))
     = [Emit (recordingFinished "/tmp/out.data")].
Proof.
  pose proof (scenario_record_pid Sample.quiet initial) as H.
  cbv zeta in H. destruct H as (_ & _ & H).
  assert (Husable : Spec.folderUsable Sample.quiet "/tmp/out.data") by (repeat split).
  destruct (H Husable) as (_ & Hspawn & _ & Hfin).
  split; [exact Hspawn |].
  apply Hfin. reflexivity.
Defined.

(** ** The capability probes *)

Lemma prefix_spec (a b : string) :
  String.prefix a b = true <-> exists rest, b = a +:+ rest.
Proof.
  revert b. induction a as [| x a IH]; intros b.
  - split; [intros _; exists b; reflexivity | intros _; now destruct b].
  - destruct b as [| y b]; cbn [String.prefix].
    + split; [discriminate | intros [rest H]; rewrite append_cons in H; discriminate H].
    + destruct (ascii_dec x y) as [-> | Hne].
      * rewrite IH. split; intros [rest H]; exists rest.
        -- rewrite append_cons. now f_equal.
        -- rewrite append_cons in H. now injection H.
      * split; [discriminate |].
        intros [rest H]. rewrite append_cons in H. injection H as H _. congruence.
Qed.

Lemma contains_spec (s needle : string) :
  Qt.contains s needle = true <-> Capability.occursIn needle s.
Proof.
  unfold Capability.occursIn. induction s as [| x s IH].
  - cbn [Qt.contains]. rewrite orb_false_r, prefix_spec. split.
    + intros [rest H]. exists "", rest. exact H.
    + intros (before & after & H). destruct before as [| y before].
      * exists after. exact H.
      * rewrite append_cons in H. discriminate H.
  - cbn [Qt.contains]. rewrite orb_true_iff, IH, prefix_spec. split.
    + intros [[rest H] | (before & after & H)].
      * exists "", rest. exact H.
      * exists (String x before), after. rewrite append_cons. now f_equal.
    + intros (before & after & H). destruct before as [| y before].
      * left. exists after. exact H.
      * right. rewrite append_cons in H. injection H as _ H. eauto.
Qed.

(** C9.  When the text of [perf record --help] is empty, both
    [canSampleCpu] and [canSwitchEvents] answer [true].  Otherwise each
    answers [true] exactly when its flag occurs in the text.  The text is
    fetched by the first query only: later queries answer from what the first
    one stored. *)
Theorem capability_from_help (perfOutput : list string -> string) :
  let help := perfOutput ["record"; "--help"] in
  (help = "" ->
     fst (Capability.canSampleCpu perfOutput None) = true
     /\ fst (Capability.canSwitchEvents perfOutput None) = true)
  /\ (help <> "" ->
        (fst (Capability.canSampleCpu perfOutput None) = true
         <-> Capability.occursIn "--sample-cpu" help)
        /\ (fst (Capability.canSwitchEvents perfOutput None) = true
            <-> Capability.occursIn "--switch-events" help))
  /\ (forall later : list string -> string,
        fst (Capability.canSwitchEvents later (snd (Capability.canSampleCpu perfOutput None)))
        = fst (Capability.canSwitchEvents perfOutput None)
        /\ fst (Capability.canSampleCpu later (snd (Capability.canSwitchEvents perfOutput None)))
           = fst (Capability.canSampleCpu perfOutput None)).
Proof.
  intros help.
  unfold Capability.canSampleCpu, Capability.canSwitchEvents, Capability.perfRecordHelp.
  fold help.
  split; [| split].
  - intros ->. split; reflexivity.
  - intros Hne. destruct help as [| x rest] eqn:E; [congruence |].
    cbn [Qt.isEmpty fst]. split; apply contains_spec.
  - intros later. destruct (Qt.isEmpty help); split; reflexivity.
Qed.

Lemma capability_from_help_witness :
  fst (Capability.canSampleCpu (fun _ => "") None) = true
  /\ fst (Capability.canSwitchEvents (fun _ => "") None) = true.
Proof.
  apply (proj1 (capability_from_help (fun _ => ""))). reflexivity.
Defined.

(** ** The stop flag *)

Lemma startRecording_flag (w : World) (s : Session) (perfOptions : list string)
    (outputPath : string) (recordOptions : list string) (workingDirectory : string) :
  m_userTerminated
    (state_of (startRecording w perfOptions outputPath recordOptions workingDirectory s))
  = m_userTerminated s.
Proof.
  destruct (folderUsable_dec w outputPath) as [Hok | Hbad].
  - pose proof (startRecording_accepted w s perfOptions outputPath recordOptions
                  workingDirectory Hok) as H.
    cbv zeta in H. tauto.
  - pose proof (startRecording_rejected w s perfOptions outputPath recordOptions
                  workingDirectory Hbad) as H.
    cbv zeta in H. tauto.
Qed.

Lemma readSlot_flag (w : World) (s : Session) (c : nat) :
  m_userTerminated (state_of (readSlot w c s)) = m_userTerminated s.
Proof.
  destruct (elevations s !! c) as [e|] eqn:He.
  - pose proof (readSlot_run w s c e He) as Hrun. cbv zeta in Hrun.
    destruct (Qt.isEmpty _); [destruct Hrun as [-> _]; reflexivity |].
    destruct (Qt.contains _ privilegesElevated).
    { destruct Hrun as [-> _]. now rewrite startRecording_flag. }
    destruct (Qt.contains _ errorMarker); destruct Hrun as [-> _]; reflexivity.
  - unfold readSlot. rewrite state_of_get, He. reflexivity.
Qed.

Lemma startRecordingElevated_flag (w : World) (s : Session) (elevatePrivileges : bool)
    (perfOptions : list string) (outputPath : string) (recordOptions : list string)
    (workingDirectory : string) :
  m_userTerminated
    (state_of (startRecordingElevated w elevatePrivileges perfOptions outputPath
                 recordOptions workingDirectory s))
  = m_userTerminated s.
Proof.
  unfold startRecordingElevated.
  destruct elevatePrivileges; [| apply startRecording_flag].
  destruct (Qt.isEmpty _); [reflexivity |].
  destruct s as [proc path flag conns pend elevs next]. reflexivity.
Qed.

(** Only the [finished] lambda clears the flag. *)
Lemma dispatch_flag (w : World) (s : Session) (ev : Event) :
  ~ Spec.isFinished ev ->
  m_userTerminated s = true ->
  m_userTerminated (state_of (dispatch w ev s)) = true.
Proof.
  intros Hev Hflag. unfold dispatch. rewrite state_of_get.
  destruct ev as [r | p | p error | p exitCode exitStatus | p | p | c step | c].
  - destruct r as [po op el pids | po op |]; unfold call.
    + unfold record. destruct pids; [exact Hflag |].
      now rewrite startRecordingElevated_flag.
    + unfold recordSystem. now rewrite startRecordingElevated_flag.
    + destruct (stopRecording_run s) as [-> _]. reflexivity.
  - destruct (connections s !! p) as [[[[b cmd]|]]|]; exact Hflag.
  - destruct (decide _); [| exact Hflag].
    unfold onErrorOccurred. rewrite state_of_get, Hflag. exact Hflag.
  - destruct Hev. exact I.
  - destruct (decide _); [| exact Hflag].
    unfold onReadyRead. rewrite state_of_get.
    destruct (m_perfRecordProcess s); exact Hflag.
  - destruct (decide _); exact Hflag.
  - destruct (decide _); [| exact Hflag].
    unfold onPercentChanged.
    destruct (step =? 1)%Z; [exact Hflag |].
    destruct (step =? 2)%Z; exact Hflag.
  - destruct (elevations s !! c) as [[pos [ms|] po op ro wd]|]; try exact Hflag.
    now rewrite readSlot_flag.
Qed.

Lemma run_flag (evs : list (World * Event)) (s : Session) :
  (forall w ev, In (w, ev) evs -> ~ Spec.isFinished ev) ->
  m_userTerminated s = true ->
  m_userTerminated (state_of (run evs s)) = true.
Proof.
  revert s. induction evs as [| [w ev] evs IH]; intros s Hevs Hflag; [exact Hflag |].
  cbn [run].
  change (m_userTerminated (state_of (run evs (state_of (dispatch w ev s)))) = true).
  apply IH.
  - intros w' ev' Hin. apply (Hevs w' ev'). now right.
  - apply dispatch_flag; [apply (Hevs w ev); now left | exact Hflag].
Qed.

(** While the flag is set, an error of a process is not reported. *)
Lemma dispatch_error_muted (w : World) (s : Session) (p : nat) (error : Qt.ProcessError) :
  m_userTerminated s = true ->
  trace_of (dispatch w (ProcErrorOccurred p error) s) = [].
Proof.
  intros Hflag. unfold dispatch. rewrite trace_of_get.
  destruct (decide _); [| reflexivity].
  unfold onErrorOccurred. rewrite trace_of_get, Hflag. reflexivity.
Qed.

(** C10.  Called while the session has no process, [stopRecording] emits
    nothing, asks nothing of any process, and sets the stop flag.  The flag
    stays set through every later event that is not the [finished] signal of
    a process, and such a signal clears it.  So the next recording, started
    after that call, is started as usual, but an error of its process, such
    as a failure to start, is reported by no signal at all. *)
Theorem stop_without_process_mutes_next_failure (w : World) (s : Session) :
  m_perfRecordProcess s = None ->
  let stopped := stopRecording s in
  trace_of stopped = []
  /\ state_of stopped = set_userTerminated true s
  /\ (forall evs : list (World * Event),
        (forall w' ev, In (w', ev) evs -> ~ Spec.isFinished ev) ->
        m_userTerminated (state_of (run evs (state_of stopped))) = true
        /\ forall w' p error,
             trace_of (dispatch w' (ProcErrorOccurred p error)
                         (state_of (run evs (state_of stopped)))) = [])
  /\ (forall (s' : Session) (w' : World) (p : nat) (exitCode : Z) (exitStatus : Qt.ExitStatus),
        is_Some (connections s' !! p) ->
        m_userTerminated (state_of (dispatch w' (ProcFinished p exitCode exitStatus) s'))
        = false)
  /\ (forall (perfOptions : list string) (outputPath pid : string) (pids : list string)
             (w' : World) (error : Qt.ProcessError),
        Spec.folderUsable w outputPath ->
        let started := record w perfOptions outputPath false (pid :: pids) (state_of stopped) in
        let p := nextObject s in
        spawns (trace_of started)
        = [(p, "perf",
            ["record"; "-o"; outputPath]
            ++ (perfOptions ++ ["--pid"; Qt.join "," (pid :: pids)]) ++ [])]
        /\ is_Some (connections (state_of started) !! p)
        /\ trace_of (dispatch w' (ProcErrorOccurred p error) (state_of started)) = []).
Proof.
  intros Hnone stopped.
  destruct (stopRecording_run s) as [Hst Htr]. fold stopped in Hst, Htr.
  rewrite Hnone in Htr.
  assert (Hflag : m_userTerminated (state_of stopped) = true) by (now rewrite Hst).
  split; [exact Htr |]. split; [exact Hst |]. split; [| split].
  - intros evs Hevs.
    pose proof (run_flag evs (state_of stopped) Hevs Hflag) as Hkept.
    split; [exact Hkept |].
    intros w' p error. now apply dispatch_error_muted.
  - intros s' w' p exitCode exitStatus Hconn.
    destruct (dispatch_finished w' s' p exitCode exitStatus Hconn) as [_ ->].
    rewrite onFinished_state. reflexivity.
  - intros perfOptions outputPath pid pids w' error Hok started p. subst started.
    rewrite record_not_elevated.
    destruct (startRecording_accepted w (state_of stopped)
                (perfOptions ++ ["--pid"; Qt.join "," (pid :: pids)]) outputPath [] "" Hok)
      as (Ht & _ & _ & _ & Hkeep & Hconn & _).
    assert (Hp : nextObject (state_of stopped) = p) by (now rewrite Hst).
    rewrite Hp in Ht, Hconn.
    split; [| split].
    + rewrite Ht, spawns_app, spawns_replaced. reflexivity.
    + rewrite Hconn, lookup_insert_eq. eauto.
    + apply dispatch_error_muted. now rewrite Hkeep.
Qed.

Lemma stop_without_process_mutes_next_failure_witness :
  let stopped := stopRecording initial in
  let started := record Sample.quiet ["-F"; "99"] "/tmp/out.data" false ["1234"]
                   (state_of stopped) in
  trace_of stopped = []
  /\ spawns (trace_of started)
     = [(0, "perf", ["record"; "-o"; "/tmp/out.data"; "-F"; "99"; "--pid"; "1234"])]
  /\ trace_of (dispatch Sample.quiet (ProcErrorOccurred 0 Qt.FailedToStart)
                 (state_of started)) = [].
Proof.
  pose proof (stop_without_process_mutes_next_failure Sample.quiet initial eq_refl) as H.
  cbv zeta in H. destruct H as (Hquiet & _ & _ & _ & Hnext).
  assert (Husable : Spec.folderUsable Sample.quiet "/tmp/out.data") by (repeat split).
  destruct (Hnext ["-F"; "99"] "/tmp/out.data" "1234" [] Sample.quiet Qt.FailedToStart Husable)
    as (Hspawn & _ & Hmuted).
  split; [exact Hquiet |]. split; [exact Hspawn | exact Hmuted].
Defined.

(** * Further properties of the code *)

(** ** Launching a program *)

Lemma quote_messages_differ (a b : string) :
  Executable.notAFile a <> Executable.doesNotExist b
  /\ Executable.notAFile a <> Executable.notExecutable b.
Proof. split; discriminate. Qed.

Lemma file_messages_differ (a : string) :
  Executable.doesNotExist a <> Executable.notExecutable a.
Proof.
  unfold Executable.doesNotExist, Executable.notExecutable. intros H.
  apply String.app_inj in H. apply String.app_inj in H. discriminate H.
Qed.

(** X1.  A program that does not exist, neither as given nor on the search
    path, or that is not a regular file, or not executable, is rejected by
    one failure that names the path as the caller gave it and tells which check
    failed.  Nothing else happens: the session, its child and its elevation
    attempts are as before, also when elevation was asked for. *)
Theorem unlaunchable_program_rejected
    (w : World) (x : Executable.Programs) (s : Session) (perfOptions : list string)
    (outputPath : string) (elevatePrivileges : bool) (exePath : string)
    (exeOptions : list string) (workingDirectory : string) :
  Executable.launchable x exePath = false ->
  let r := Executable.record w x perfOptions outputPath elevatePrivileges exePath
             exeOptions workingDirectory s in
  let info := Executable.resolved x exePath in
  Spec.withoutSideEffects s r
  /\ (exists reason,
        trace_of r = [Emit (recordingFailed reason)]
        /\ (reason = Executable.doesNotExist exePath
            <-> Executable.exists_ info = false)
        /\ (reason = Executable.notAFile exePath
            <-> Executable.exists_ info = true /\ Executable.isFile info = false)
        /\ (reason = Executable.notExecutable exePath
            <-> Executable.exists_ info = true /\ Executable.isFile info = true
                /\ Executable.isExecutable info = false)).
Proof.
  intros Hbad r info. subst r info.
  unfold Executable.launchable in Hbad.
  unfold Executable.record. fold (Executable.resolved x exePath).
  pose proof (quote_messages_differ exePath exePath) as [Hq1 Hq2].
  pose proof (file_messages_differ exePath) as Hf.
  destruct (Executable.exists_ (Executable.resolved x exePath)) eqn:E1; cbn [negb].
  - destruct (Executable.isFile (Executable.resolved x exePath)) eqn:E2; cbn [negb].
    + destruct (Executable.isExecutable (Executable.resolved x exePath)) eqn:E3;
        [discriminate Hbad |]. cbn [negb].
      split; [split; [reflexivity | intros e [<- | []]; eauto] |].
      eexists. split; [reflexivity |].
      repeat split; try congruence; try tauto.
      all: intros; intuition congruence.
    + split; [split; [reflexivity | intros e [<- | []]; eauto] |].
      eexists. split; [reflexivity |].
      repeat split; try congruence; try tauto.
      all: intros; intuition congruence.
  - split; [split; [reflexivity | intros e [<- | []]; eauto] |].
    eexists. split; [reflexivity |].
    repeat split; try congruence; try tauto.
    all: intros; intuition congruence.
Qed.

Lemma unlaunchable_program_rejected_witness :
  trace_of (Executable.record Sample.quiet Fixture.programs ["-F"; "99"] "/tmp/out.data"
              false "nonexistent_binary" [] "" Sample.recording)
  = [Emit (recordingFailed "File 'nonexistent_binary' does not exist.")].
Proof.
  pose proof (unlaunchable_program_rejected Sample.quiet Fixture.programs Sample.recording
                ["-F"; "99"] "/tmp/out.data" false "nonexistent_binary" [] "" eq_refl) as H.
  cbv zeta in H. destruct H as (_ & reason & Ht & Hmissing & _).
  rewrite Ht. f_equal. f_equal. f_equal. apply Hmissing. reflexivity.
Defined.

(** X2.  A program that can be launched is recorded under its absolute path:
    found directly, or else through the search path.  Without elevation and
    with a usable output folder exactly one process is started, as
    [perf record -o outputPath perfOptions program exeOptions], in the working
    directory asked for when one is given.  With elevation nothing is started
    yet and the request, with the absolute path and the working directory, is
    what the poll will start on. *)
Theorem launchable_program_recorded
    (w : World) (x : Executable.Programs) (s : Session) (perfOptions : list string)
    (outputPath : string) (exePath : string)
    (exeOptions : list string) (workingDirectory : string) :
  Executable.launchable x exePath = true ->
  let program := Executable.absoluteFilePath (Executable.resolved x exePath) in
  let perfCommand := ["record"; "-o"; outputPath] ++ perfOptions ++ program :: exeOptions in
  let p := nextObject s in
  (Spec.folderUsable w outputPath ->
   let r := Executable.record w x perfOptions outputPath false exePath
              exeOptions workingDirectory s in
   trace_of r = Spec.replaced s
                ++ [ProcNew p; ProcSetMergedChannels p]
                ++ (if Qt.isEmpty workingDirectory then []
                    else [ProcSetWorkingDirectory p workingDirectory])
                ++ [ProcStart p "perf" perfCommand]
   /\ spawns (trace_of r) = [(p, "perf", perfCommand)])
  /\ (Qt.isEmpty (findLibexecBinary w "elevate_perf_privileges.sh") = false ->
      let r := Executable.record w x perfOptions outputPath true exePath
                 exeOptions workingDirectory s in
      spawns (trace_of r) = []
      /\ elevations (state_of r) !! p
         = Some {| readPos := 0; readTimer := None;
                   PerfRecord.perfOptions := perfOptions;
                   PerfRecord.outputPath := outputPath;
                   PerfRecord.recordOptions := program :: exeOptions;
                   PerfRecord.workingDirectory := workingDirectory |}).
Proof.
  intros Hok program perfCommand p.
  assert (Hrun : forall elevatePrivileges,
             Executable.record w x perfOptions outputPath elevatePrivileges exePath
               exeOptions workingDirectory s
             = startRecordingElevated w elevatePrivileges perfOptions outputPath
                 (program :: exeOptions) workingDirectory s).
  { intros elevatePrivileges. unfold Executable.launchable in Hok.
    apply andb_true_iff in Hok as [Hok E3]. apply andb_true_iff in Hok as [E1 E2].
    unfold Executable.record. fold (Executable.resolved x exePath).
    rewrite E1, E2, E3. reflexivity. }
  split.
  - intros Husable r. subst r. rewrite Hrun.
    change (startRecordingElevated w false perfOptions outputPath (program :: exeOptions)
              workingDirectory s)
      with (startRecording w perfOptions outputPath (program :: exeOptions)
              workingDirectory s).
    destruct (startRecording_accepted w s perfOptions outputPath (program :: exeOptions)
                workingDirectory Husable) as (Ht & _).
    split; [exact Ht |].
    rewrite Ht, !spawns_app, spawns_replaced.
    destruct (Qt.isEmpty workingDirectory); reflexivity.
  - intros Hscript r. subst r. rewrite Hrun.
    destruct (startRecordingElevated_captures w s perfOptions outputPath
                (program :: exeOptions) workingDirectory Hscript) as (Hcap & Hsp & _).
    split; [exact Hsp | exact Hcap].
Qed.

Lemma launchable_program_recorded_witness :
  spawns (trace_of (Executable.record Sample.quiet Fixture.programs ["-F"; "99"]
                      "/tmp/out.data" false "ls" ["-l"] "/home" initial))
  = [(0, "perf", ["record"; "-o"; "/tmp/out.data"; "-F"; "99"; "/usr/bin/ls"; "-l"])].
Proof.
  pose proof (launchable_program_recorded Sample.quiet Fixture.programs initial
                ["-F"; "99"] "/tmp/out.data" "ls" ["-l"] "/home" eq_refl) as H.
  cbv zeta in H. destruct H as (H & _).
  assert (Husable : Spec.folderUsable Sample.quiet "/tmp/out.data") by (repeat split).
  exact (proj2 (H Husable)).
Defined.

(** ** Elevated starts *)

(** The poll that reads the success marker, in a usable folder. *)
Lemma poll_with_marker (w : World) (s : Session) (c : nat) (e : Elevation) :
  elevations s !! c = Some e ->
  is_Some (readTimer e) ->
  Qt.contains (Qt.drop (readPos e) (tempFileContent w c)) privilegesElevated = true ->
  Spec.folderUsable w (outputPath e) ->
  let p := nextObject s in
  let perfCommand := ["record"; "-o"; outputPath e] ++ perfOptions e ++ recordOptions e in
  trace_of (dispatch w (TimerTimeout c) s)
  = [Emit (recordingOutput (Qt.drop (readPos e) (tempFileContent w c)));
     Emit (recordingOutput Qt.LF)]
    ++ Spec.replaced s
    ++ [ProcNew p; ProcSetMergedChannels p]
    ++ (if Qt.isEmpty (workingDirectory e) then []
        else [ProcSetWorkingDirectory p (workingDirectory e)])
    ++ [ProcStart p "perf" perfCommand].
Proof.
  intros He Ht Hmarker Hok p perfCommand.
  destruct (dispatch_timeout w s c e He Ht) as [_ ->].
  pose proof (readSlot_run w s c e He) as Hrun. cbv zeta in Hrun.
  rewrite (marker_not_in_empty _ Hmarker), Hmarker in Hrun.
  destruct Hrun as [_ ->].
  set (s' := set_elevations _ s).
  destruct (startRecording_accepted w s' (perfOptions e) (outputPath e) (recordOptions e)
              (workingDirectory e) Hok) as (Hstart & _).
  rewrite Hstart. reflexivity.
Qed.

Lemma percent_two_starts_timer (w : World) (s : Session) (c : nat) (e : Elevation) :
  elevations s !! c = Some e ->
  state_of (dispatch w (JobPercentChanged c 2) s)
  = set_elevations (alter (set_readTimer (Some 250%Z)) c (elevations s)) s
  /\ trace_of (dispatch w (JobPercentChanged c 2) s) = [TimerStart c 250].
Proof.
  intros He. unfold dispatch. rewrite state_of_get, trace_of_get.
  destruct (decide _) as [_ | Hn]; [split; reflexivity |].
  destruct Hn. eauto.
Qed.

(** An elevated start that finds the script: a temporary file, the job, and
    the request kept for the poll. *)
Lemma startRecordingElevated_found (w : World) (s : Session) (perfOptions : list string)
    (outputPath : string) (recordOptions : list string) (workingDirectory : string) :
  Qt.isEmpty (findLibexecBinary w "elevate_perf_privileges.sh") = false ->
  let r := startRecordingElevated w true perfOptions outputPath recordOptions
             workingDirectory s in
  let c := nextObject s in
  state_of r
  = set_elevations
      (<[c := {| readPos := 0; readTimer := None;
                 PerfRecord.perfOptions := perfOptions;
                 PerfRecord.outputPath := outputPath;
                 PerfRecord.recordOptions := recordOptions;
                 PerfRecord.workingDirectory := workingDirectory |}]> (elevations s))
      (set_nextObject (S c) s)
  /\ trace_of r = [TempFileOpen c;
                   JobStart c "com.kdab.hotspot.elevate" "com.kdab.hotspot"
                     (findLibexecBinary w "elevate_perf_privileges.sh")
                     (tempFileName w c)].
Proof.
  intros Hscript. cbv zeta. unfold startRecordingElevated. rewrite Hscript.
  destruct s as [proc path flag conns pend elevs next]. step_m.
  split; reflexivity.
Qed.

(** X3.  A recording of the whole system always goes through elevation: the
    call itself starts no process and leaves the session's child alone.  When
    the elevation script cannot be found it only emits a failure.  Otherwise
    the privileged job is started on the script and a new temporary file, and
    once the helper has reported the script running and a poll reads the
    success marker, the profiler is started on the caller's options followed
    by [--all-cpus]. *)
Theorem system_recording_elevates
    (w : World) (s : Session) (perfOptions : list string) (outputPath : string) :
  let r := recordSystem w perfOptions outputPath s in
  let c := nextObject s in
  let script := findLibexecBinary w "elevate_perf_privileges.sh" in
  spawns (trace_of r) = []
  /\ m_perfRecordProcess (state_of r) = m_perfRecordProcess s
  /\ (script = "" ->
      state_of r = s
      /\ trace_of r
         = [Emit (recordingFailed "Failed to find `elevate_perf_privileges.sh` script.")])
  /\ (script <> "" ->
      trace_of r = [TempFileOpen c;
                    JobStart c "com.kdab.hotspot.elevate" "com.kdab.hotspot"
                      script (tempFileName w c)]
      /\ forall w1 w2 : World,
           let s2 := state_of (dispatch w1 (JobPercentChanged c 2) (state_of r)) in
           Qt.contains (tempFileContent w2 c) privilegesElevated = true ->
           Spec.folderUsable w2 outputPath ->
           spawns (trace_of (dispatch w2 (TimerTimeout c) s2))
           = [(nextObject s2, "perf",
               ["record"; "-o"; outputPath] ++ (perfOptions ++ ["--all-cpus"]) ++ [])]).
Proof.
  intros r c script. subst r. unfold recordSystem.
  destruct (Qt.isEmpty script) eqn:Escript.
  - assert (Hempty : script = "") by (destruct script; [reflexivity | discriminate]).
    unfold startRecordingElevated. fold script. rewrite Escript.
    split; [reflexivity |]. split; [reflexivity |].
    split; [intros _; split; reflexivity |].
    intros Hne. now destruct Hne.
  - destruct (startRecordingElevated_found w s (perfOptions ++ ["--all-cpus"]) outputPath
                [] "" Escript) as [Hst Htr].
    fold c script in Hst, Htr.
    set (r := startRecordingElevated w true _ outputPath [] "" s) in *.
    split; [rewrite Htr; reflexivity |].
    split; [rewrite Hst; reflexivity |].
    split; [intros Hempty; rewrite Hempty in Escript; discriminate Escript |].
    intros _. split; [exact Htr |].
    intros w1 w2 Hmarker Hok.
    set (s2 := state_of (dispatch w1 (JobPercentChanged c 2) (state_of r))).
    assert (He1 : elevations (state_of r) !! c
                  = Some {| readPos := 0; readTimer := None;
                            PerfRecord.perfOptions := perfOptions ++ ["--all-cpus"];
                            PerfRecord.outputPath := outputPath;
                            recordOptions := []; workingDirectory := "" |}).
    { rewrite Hst. apply lookup_insert_eq. }
    destruct (percent_two_starts_timer w1 (state_of r) c _ He1) as [Hs2 _]. fold s2 in Hs2.
    assert (He2 : elevations s2 !! c
                  = Some (set_readTimer (Some 250%Z)
                            {| readPos := 0; readTimer := None;
                               PerfRecord.perfOptions := perfOptions ++ ["--all-cpus"];
                               PerfRecord.outputPath := outputPath;
                               recordOptions := []; workingDirectory := "" |})).
    { rewrite Hs2. cbn [elevations set_elevations]. rewrite lookup_alter_eq, He1. reflexivity. }
    rewrite (poll_with_marker w2 s2 c _ He2); [| cbn; eauto | exact Hmarker | exact Hok].
    rewrite !spawns_app, spawns_replaced. reflexivity.
Qed.

Lemma system_recording_elevates_witness :
  let s1 := state_of (recordSystem Sample.quiet ["-F"; "99"] "/tmp/out.data" initial) in
  let s2 := state_of (dispatch Sample.quiet (JobPercentChanged 0 2) s1) in
  spawns (trace_of (dispatch Sample.elevated (TimerTimeout 0) s2))
  = [(nextObject s2, "perf", ["record"; "-o"; "/tmp/out.data"; "-F"; "99"; "--all-cpus"])].
Proof.
  pose proof (system_recording_elevates Sample.quiet initial ["-F"; "99"] "/tmp/out.data") as H.
  cbv zeta in H. destruct H as (_ & _ & _ & H).
  destruct H as (_ & H); [discriminate |].
  apply (H Sample.quiet Sample.elevated).
  - vm_compute. reflexivity.
  - repeat split.
Defined.

(** X4.  A start with elevation does not touch the session's child and starts
    nothing by itself.  Without the elevation script it emits one failure and
    makes no privileged call.  With it, it opens a temporary file and starts
    the privileged job on the script and the name of that file; the file is
    not polled before the helper reports its second progress step, and a
    progress step other than 1 and 2 is ignored. *)
Theorem elevated_start_waits_for_helper
    (w : World) (s : Session) (perfOptions : list string) (outputPath : string)
    (recordOptions : list string) (workingDirectory : string) :
  let r := startRecordingElevated w true perfOptions outputPath recordOptions
             workingDirectory s in
  let c := nextObject s in
  let script := findLibexecBinary w "elevate_perf_privileges.sh" in
  (Qt.isEmpty script = true ->
   state_of r = s
   /\ trace_of r
      = [Emit (recordingFailed "Failed to find `elevate_perf_privileges.sh` script.")])
  /\ (Qt.isEmpty script = false ->
      trace_of r = [TempFileOpen c;
                    JobStart c "com.kdab.hotspot.elevate" "com.kdab.hotspot"
                      script (tempFileName w c)]
      /\ m_perfRecordProcess (state_of r) = m_perfRecordProcess s
      /\ connections (state_of r) = connections s
      /\ m_outputPath (state_of r) = m_outputPath s
      /\ m_userTerminated (state_of r) = m_userTerminated s
      /\ (forall w' : World,
            trace_of (dispatch w' (TimerTimeout c) (state_of r)) = []
            /\ state_of (dispatch w' (TimerTimeout c) (state_of r)) = state_of r)
      /\ (forall (w' : World) (step : Z),
            step <> 1%Z -> step <> 2%Z ->
            trace_of (dispatch w' (JobPercentChanged c step) (state_of r)) = []
            /\ state_of (dispatch w' (JobPercentChanged c step) (state_of r)) = state_of r)).
Proof.
  intros r c script. split.
  - intros Hempty. subst r. unfold startRecordingElevated. fold script.
    rewrite Hempty. split; reflexivity.
  - intros Hfound.
    destruct (startRecordingElevated_found w s perfOptions outputPath recordOptions
                workingDirectory Hfound) as [Hst Htr].
    fold r c script in Hst, Htr.
    assert (He : elevations (state_of r) !! c
                 = Some {| readPos := 0; readTimer := None;
                           PerfRecord.perfOptions := perfOptions;
                           PerfRecord.outputPath := outputPath;
                           PerfRecord.recordOptions := recordOptions;
                           PerfRecord.workingDirectory := workingDirectory |}).
    { rewrite Hst. apply lookup_insert_eq. }
    split; [exact Htr |].
    split; [rewrite Hst; reflexivity |]. split; [rewrite Hst; reflexivity |].
    split; [rewrite Hst; reflexivity |]. split; [rewrite Hst; reflexivity |].
    split.
    + intros w'. unfold dispatch. rewrite trace_of_get, state_of_get, He.
      split; reflexivity.
    + intros w' step H1 H2. unfold dispatch. rewrite trace_of_get, state_of_get.
      destruct (decide _) as [_ | Hn]; [| split; reflexivity].
      unfold onPercentChanged.
      destruct (Z.eqb_spec step 1) as [-> | _]; [now destruct H1 |].
      destruct (Z.eqb_spec step 2) as [-> | _]; [now destruct H2 |].
      split; reflexivity.
Qed.

Lemma elevated_start_waits_for_helper_witness :
  let r := startRecordingElevated Sample.elevated true ["-F"; "99"] "/tmp/out.data" [] ""
             Sample.recording in
  m_perfRecordProcess (state_of r) = Some 0
  /\ trace_of (dispatch Sample.elevated (TimerTimeout 1) (state_of r)) = [].
Proof.
  pose proof (elevated_start_waits_for_helper Sample.elevated Sample.recording
                ["-F"; "99"] "/tmp/out.data" [] "") as H.
  cbv zeta in H. destruct H as (_ & H).
  destruct (H eq_refl) as (_ & Hproc & _ & _ & _ & Hpoll & _).
  split; [exact Hproc | exact (proj1 (Hpoll Sample.elevated))].
Defined.

(** ** The children of the session *)
















(** ** What the session tells about its command *)

(** X7.  After a start that passed the folder checks, the [started] signal of
    the new process is announced as [recordingStarted] with exactly the
    binary and the argument list the process was started with.  After a start
    that was rejected, the process object created for it has no lambda
    connected: none of its signals is reported. *)
Theorem started_announces_spawn
    (w : World) (s : Session) (perfOptions : list string) (outputPath : string)
    (recordOptions : list string) (workingDirectory : string) :
  connections s !! nextObject s = None ->
  let r := startRecording w perfOptions outputPath recordOptions workingDirectory s in
  let p := nextObject s in
  let perfCommand := ["record"; "-o"; outputPath] ++ perfOptions ++ recordOptions in
  (Spec.folderUsable w outputPath ->
   spawns (trace_of r) = [(p, "perf", perfCommand)]
   /\ forall w' : World,
        trace_of (dispatch w' (ProcStarted p) (state_of r))
        = [Emit (recordingStarted "perf" perfCommand)])
  /\ (~ Spec.folderUsable w outputPath ->
      spawns (trace_of r) = []
      /\ forall (w' : World) (error : Qt.ProcessError) (exitCode : Z)
                (exitStatus : Qt.ExitStatus),
           trace_of (dispatch w' (ProcStarted p) (state_of r)) = []
           /\ trace_of (dispatch w' (ProcErrorOccurred p error) (state_of r)) = []
           /\ trace_of (dispatch w' (ProcFinished p exitCode exitStatus) (state_of r)) = []
           /\ trace_of (dispatch w' (ProcReadyRead p) (state_of r)) = []).
Proof.
  intros Hnew r p perfCommand. split.
  - intros Hok.
    destruct (startRecording_accepted w s perfOptions outputPath recordOptions
                workingDirectory Hok) as (Ht & _ & _ & _ & _ & Hconn & _).
    fold r p perfCommand in Ht, Hconn. split.
    + rewrite Ht, !spawns_app, spawns_replaced.
      destruct (Qt.isEmpty workingDirectory); reflexivity.
    + intros w'. unfold dispatch. rewrite trace_of_get, Hconn, lookup_insert_eq.
      reflexivity.
  - intros Hbad.
    destruct (startRecording_rejected w s perfOptions outputPath recordOptions
                workingDirectory Hbad) as ((reason & _ & Ht) & _ & _ & _ & _ & Hconn & _).
    fold r p in Ht, Hconn. split.
    + rewrite Ht, !spawns_app, spawns_replaced. reflexivity.
    + intros w' error exitCode exitStatus.
      assert (Hnone : ~ is_Some (connections (state_of r) !! p)).
      { rewrite Hconn. fold p in Hnew. rewrite Hnew. intros [x Hx]. discriminate Hx. }
      unfold dispatch. rewrite !trace_of_get.
      repeat split.
      * rewrite Hconn. fold p in Hnew. rewrite Hnew. reflexivity.
      * destruct (decide _); [contradiction | reflexivity].
      * destruct (decide _); [contradiction | reflexivity].
      * destruct (decide _); [contradiction | reflexivity].
Qed.

Lemma started_announces_spawn_witness :
  let r := startRecording Sample.quiet ["-F"; "99"] "/tmp/out.data" ["/usr/bin/ls"] ""
             initial in
  trace_of (dispatch Sample.quiet (ProcStarted 0) (state_of r))
  = [Emit (recordingStarted "perf"
             ["record"; "-o"; "/tmp/out.data"; "-F"; "99"; "/usr/bin/ls"])].
Proof.
  pose proof (started_announces_spawn Sample.quiet initial ["-F"; "99"] "/tmp/out.data"
                ["/usr/bin/ls"] "" eq_refl) as H.
  cbv zeta in H. destruct H as (H & _).
  assert (Husable : Spec.folderUsable Sample.quiet "/tmp/out.data") by (repeat split).
  exact (proj2 (H Husable) Sample.quiet).
Defined.

(** X8.  The command line on display is empty while the session holds no
    process.  After a start that passed the folder checks it is [perf]
    followed by the arguments the process was started with, separated by
    single spaces.  After a start that was rejected it is [perf] followed by a
    space and nothing else, because the session then holds a process object
    that was never started. *)
Theorem command_on_display
    (w : World) (s : Session) (perfOptions : list string) (outputPath : string)
    (recordOptions : list string) (workingDirectory : string) :
  connections s !! nextObject s = None ->
  let r := startRecording w perfOptions outputPath recordOptions workingDirectory s in
  let perfCommand := ["record"; "-o"; outputPath] ++ perfOptions ++ recordOptions in
  (m_perfRecordProcess s = None -> Display.perfCommand s = "")
  /\ (Spec.folderUsable w outputPath ->
      Display.perfCommand (state_of r) = "perf " +:+ Qt.join " " perfCommand)
  /\ (~ Spec.folderUsable w outputPath -> Display.perfCommand (state_of r) = "perf ").
Proof.
  intros Hnew r perfCommand. split; [| split].
  - intros Hnone. unfold Display.perfCommand. now rewrite Hnone.
  - intros Hok.
    destruct (startRecording_accepted w s perfOptions outputPath recordOptions
                workingDirectory Hok) as (_ & Hp & _ & _ & _ & Hconn & _).
    fold r perfCommand in Hp, Hconn.
    unfold Display.perfCommand, Display.arguments.
    rewrite Hp, Hconn, lookup_insert_eq. reflexivity.
  - intros Hbad.
    destruct (startRecording_rejected w s perfOptions outputPath recordOptions
                workingDirectory Hbad) as (_ & Hp & _ & _ & _ & Hconn & _).
    fold r in Hp, Hconn.
    unfold Display.perfCommand, Display.arguments.
    rewrite Hp, Hconn, Hnew. reflexivity.
Qed.

Lemma command_on_display_witness :
  Display.perfCommand
    (state_of (startRecording Sample.quiet ["-F"; "99"] "/nonexistent/out.data" [] "" initial))
  = "perf ".
Proof.
  pose proof (command_on_display Sample.quiet initial ["-F"; "99"] "/nonexistent/out.data"
                [] "" eq_refl) as H.
  cbv zeta in H. destruct H as (_ & _ & H).
  exact (H nonexistent_folder_unusable).
Defined.

(** ** What successive polls read *)

Lemma drop_empty (n : nat) : Qt.drop n "" = "".
Proof. now destruct n. Qed.

Lemma drop_append (n : nat) (a b : string) :
  n <= String.length a -> Qt.drop n (a +:+ b) = Qt.drop n a +:+ b.
Proof.
  revert a. induction n as [| n IH]; intros a Hn; [reflexivity |].
  destruct a as [| x a]; [cbn in Hn; lia |].
  rewrite append_cons. cbn [Qt.drop]. apply IH. cbn in Hn. lia.
Qed.

Lemma drop_length (n : nat) (a : string) :
  n <= String.length a -> n + String.length (Qt.drop n a) = String.length a.
Proof.
  revert a. induction n as [| n IH]; intros a Hn; [reflexivity |].
  destruct a as [| x a]; [cbn in Hn; lia |].
  cbn [Qt.drop String.length]. cbn in Hn. specialize (IH a). lia.
Qed.

Lemma drop_all (a b : string) : Qt.drop (String.length a) (a +:+ b) = b.
Proof.
  induction a as [| x a IH]; [reflexivity |].
  rewrite append_cons. cbn [String.length Qt.drop]. exact IH.
Qed.

(** The elevation attempt after a poll: only the read position has moved, to
    the end of what the poll read. *)
Lemma poll_moves_position (w : World) (s : Session) (c : nat) (e : Elevation) :
  elevations s !! c = Some e ->
  is_Some (readTimer e) ->
  elevations (state_of (dispatch w (TimerTimeout c) s)) !! c
  = Some (set_readPos
            (readPos e + String.length (Qt.drop (readPos e) (tempFileContent w c))) e).
Proof.
  intros He Ht.
  destruct (dispatch_timeout w s c e He Ht) as [-> _].
  pose proof (readSlot_run w s c e He) as Hrun. cbv zeta in Hrun.
  set (data := Qt.drop (readPos e) (tempFileContent w c)) in *.
  set (s1 := set_elevations _ s) in *.
  assert (H1 : elevations s1 !! c = Some (set_readPos (readPos e + String.length data) e))
    by apply lookup_insert_eq.
  destruct (Qt.isEmpty data); [destruct Hrun as [-> _]; exact H1 |].
  destruct (Qt.contains data privilegesElevated).
  { destruct Hrun as [-> _].
    destruct (startRecording_elevations w s1 (perfOptions e) (outputPath e)
                (recordOptions e) (workingDirectory e)) as [-> _].
    exact H1. }
  destruct (Qt.contains data errorMarker); destruct Hrun as [-> _]; exact H1.
Qed.

(** A poll whose bytes hold neither marker forwards them and does nothing
    else. *)
Lemma poll_plain (w : World) (s : Session) (c : nat) (e : Elevation) :
  elevations s !! c = Some e ->
  is_Some (readTimer e) ->
  let data := Qt.drop (readPos e) (tempFileContent w c) in
  data <> "" ->
  Qt.contains data privilegesElevated = false ->
  Qt.contains data errorMarker = false ->
  trace_of (dispatch w (TimerTimeout c) s) = [Emit (recordingOutput data)].
Proof.
  intros He Ht data Hne H1 H2.
  destruct (dispatch_timeout w s c e He Ht) as [_ ->].
  pose proof (readSlot_run w s c e He) as Hrun. cbv zeta in Hrun. fold data in Hrun.
  rewrite H1, H2 in Hrun.
  destruct data; [now destruct Hne |]. apply Hrun.
Qed.

(** X9.  Polls read the temporary file from where the previous poll stopped.
    When the file has only grown between two polls, the second poll reads
    exactly the bytes added since the first: together the two polls read every
    unread byte once, none twice and none never.  Bytes without a marker are
    forwarded as they are. *)
Theorem polls_read_each_byte_once
    (w1 w2 : World) (s : Session) (c : nat) (e : Elevation) (more : string) :
  elevations s !! c = Some e ->
  is_Some (readTimer e) ->
  readPos e <= String.length (tempFileContent w1 c) ->
  tempFileContent w2 c = tempFileContent w1 c +:+ more ->
  let first := Qt.drop (readPos e) (tempFileContent w1 c) in
  let s1 := state_of (dispatch w1 (TimerTimeout c) s) in
  exists e1,
    elevations s1 !! c = Some e1
    /\ is_Some (readTimer e1)
    /\ readPos e1 = String.length (tempFileContent w1 c)
    /\ Qt.drop (readPos e1) (tempFileContent w2 c) = more
    /\ first +:+ more = Qt.drop (readPos e) (tempFileContent w2 c)
    /\ (more <> "" ->
        Qt.contains more privilegesElevated = false ->
        Qt.contains more errorMarker = false ->
        trace_of (dispatch w2 (TimerTimeout c) s1) = [Emit (recordingOutput more)]).
Proof.
  intros He Ht Hpos Hgrow first s1.
  pose proof (poll_moves_position w1 s c e He Ht) as He1. fold s1 first in He1.
  assert (Hend : readPos e + String.length first = String.length (tempFileContent w1 c))
    by (now apply drop_length).
  assert (Hmore : Qt.drop (String.length (tempFileContent w1 c)) (tempFileContent w2 c) = more)
    by (rewrite Hgrow; apply drop_all).
  eexists. split; [exact He1 |].
  split; [exact Ht |]. split; [exact Hend |].
  split; [cbn [readPos set_readPos]; rewrite Hend; exact Hmore |].
  split; [rewrite Hgrow; symmetry; now apply drop_append |].
  intros Hne H1 H2.
  rewrite <- Hmore in Hne, H1, H2 |- * at 1.
  rewrite <- Hend in Hne, H1, H2 |- *.
  apply (poll_plain w2 s1 c _ He1 Ht); assumption.
Qed.

Lemma polls_read_each_byte_once_witness :
  let s1 := state_of (dispatch Sample.elevated (TimerTimeout 0)
                        (Sample.elevating "/tmp/out.data")) in
  exists e1,
    elevations s1 !! 0 = Some e1
    /\ Qt.drop (readPos e1) (tempFileContent Sample.writtenOn 0) = "Error: late".
Proof.
  destruct (polls_read_each_byte_once Sample.elevated Sample.writtenOn
              (Sample.elevating "/tmp/out.data") 0 _ "Error: late"
              (elevating_lookup "/tmp/out.data"))
    as (e1 & He1 & _ & _ & Hmore & _).
  - exists 250%Z. reflexivity.
  - cbn. lia.
  - reflexivity.
  - exists e1. split; [exact He1 | exact Hmore].
Defined.

(** X10.  The markers are looked for in the bytes of one poll only.  When the
    file grows between two polls and neither the bytes of the first poll nor
    those of the second hold a marker, each poll just forwards its bytes and
    no process is started: a marker written in two parts, one before and one
    after a poll, is never recognised. *)
Theorem marker_split_over_polls_is_missed
    (w1 w2 : World) (s : Session) (c : nat) (e : Elevation) (second : string) :
  elevations s !! c = Some e ->
  is_Some (readTimer e) ->
  readPos e <= String.length (tempFileContent w1 c) ->
  tempFileContent w2 c = tempFileContent w1 c +:+ second ->
  let first := Qt.drop (readPos e) (tempFileContent w1 c) in
  first <> "" -> second <> "" ->
  Qt.contains first privilegesElevated = false ->
  Qt.contains first errorMarker = false ->
  Qt.contains second privilegesElevated = false ->
  Qt.contains second errorMarker = false ->
  let r1 := dispatch w1 (TimerTimeout c) s in
  let r2 := dispatch w2 (TimerTimeout c) (state_of r1) in
  trace_of r1 = [Emit (recordingOutput first)]
  /\ trace_of r2 = [Emit (recordingOutput second)]
  /\ spawns (trace_of r1 ++ trace_of r2) = []
  /\ Qt.drop (readPos e) (tempFileContent w2 c) = first +:+ second.
Proof.
  intros He Ht Hpos Hgrow first Hne1 Hne2 Hs1 He1 Hs2 He2 r1 r2.
  pose proof (poll_plain w1 s c e He Ht Hne1 Hs1 He1) as Ht1. fold r1 in Ht1.
  pose proof (poll_moves_position w1 s c e He Ht) as Hpos1. fold r1 first in Hpos1.
  assert (Hend : readPos e + String.length first = String.length (tempFileContent w1 c))
    by (now apply drop_length).
  assert (Hsecond : Qt.drop (readPos e + String.length first) (tempFileContent w2 c) = second)
    by (rewrite Hend, Hgrow; apply drop_all).
  assert (Ht2 : trace_of r2 = [Emit (recordingOutput second)]).
  { pose proof (poll_plain w2 (state_of r1) c _ Hpos1 Ht) as H.
    cbv zeta in H. cbn [readPos set_readPos] in H. rewrite Hsecond in H.
    apply H; assumption. }
  split; [exact Ht1 |]. split; [exact Ht2 |].
  split; [rewrite Ht1, Ht2; reflexivity |].
  rewrite Hgrow. now apply drop_append.
Qed.

Lemma marker_split_over_polls_is_missed_witness :
  let s := Sample.elevating "/tmp/out.data" in
  let r1 := dispatch Fixture.halfWritten (TimerTimeout 0) s in
  let r2 := dispatch Fixture.fullyWritten (TimerTimeout 0) (state_of r1) in
  Qt.contains (Fixture.firstPart +:+ Fixture.secondPart) privilegesElevated = true
  /\ spawns (trace_of r1 ++ trace_of r2) = [].
Proof.
  split; [vm_compute; reflexivity |].
  refine (proj1 (proj2 (proj2
            (marker_split_over_polls_is_missed Fixture.halfWritten Fixture.fullyWritten
               (Sample.elevating "/tmp/out.data") 0 _ Fixture.secondPart
               (elevating_lookup "/tmp/out.data") _ _ _ _ _ _ _ _ _)))).
  - exists 250%Z. reflexivity.
  - cbn. lia.
  - reflexivity.
  - discriminate.
  - discriminate.
  - vm_compute. reflexivity.
  - vm_compute. reflexivity.
  - vm_compute. reflexivity.
  - vm_compute. reflexivity.
Defined.

(** ** The helper after its watchdog *)

Lemma progressSteps_app (t1 t2 : list AuthHelper.Effect) :
  AuthHelper.progressSteps (t1 ++ t2)
  = AuthHelper.progressSteps t1 ++ AuthHelper.progressSteps t2.
Proof. unfold AuthHelper.progressSteps. apply omap_app. Qed.

Lemma exec_cons (st : AuthHelper.State) (ev : AuthHelper.Event)
    (evs : list AuthHelper.Event) :
  snd (AuthHelper.exec st (ev :: evs))
  = snd (AuthHelper.handle st ev)
    ++ (if AuthHelper.loopQuit (fst (AuthHelper.handle st ev)) then []
        else snd (AuthHelper.exec (fst (AuthHelper.handle st ev)) evs)).
Proof.
  cbn [AuthHelper.exec].
  destruct (AuthHelper.handle st ev) as [st' t]. cbn [fst snd].
  destruct (AuthHelper.loopQuit st'); [now rewrite app_nil_r |].
  now destruct (AuthHelper.exec st' evs).
Qed.

Lemma handle_keeps_disconnected (st : AuthHelper.State) (ev : AuthHelper.Event) :
  AuthHelper.errorOccurredConnected st = false ->
  AuthHelper.errorOccurredConnected (fst (AuthHelper.handle st ev)) = false
  /\ ~ In 1%Z (AuthHelper.progressSteps (snd (AuthHelper.handle st ev))).
Proof.
  intros Hoff. destruct ev; cbn; rewrite ?Hoff; cbn; split; try assumption;
    try reflexivity; try tauto.
  intros [H | []]. discriminate H.
Qed.

Lemma exec_disconnected_silent (st : AuthHelper.State) (evs : list AuthHelper.Event) :
  AuthHelper.errorOccurredConnected st = false ->
  ~ In 1%Z (AuthHelper.progressSteps (snd (AuthHelper.exec st evs))).
Proof.
  revert st. induction evs as [| ev evs IH]; intros st Hoff; [intros [] |].
  rewrite exec_cons, progressSteps_app, in_app_iff.
  destruct (handle_keeps_disconnected st ev Hoff) as [Hoff' Hquiet].
  intros [H | H]; [now apply Hquiet |].
  destruct (AuthHelper.loopQuit _); [destruct H |].
  now apply (IH _ Hoff').
Qed.

(** X11.  Once the watchdog of the helper has fired, no error of the script's
    process is reported any more: if the process signalled no error before the
    watchdog, the helper never reports progress step 1, whatever the process
    signals afterwards.  In particular the error that terminating the script
    raises is not reported as a failure of the elevation. *)
Theorem watchdog_silences_errors
    (args : gmap string string) (before after : list AuthHelper.Event) :
  (forall error, ~ In (AuthHelper.errorOccurred error) before) ->
  ~ In 1%Z (AuthHelper.progressSteps
              (snd (AuthHelper.elevate args (before ++ AuthHelper.watchdog :: after)))).
Proof.
  intros Hclean.
  assert (Hexec : forall st,
             ~ In 1%Z (AuthHelper.progressSteps
                         (snd (AuthHelper.exec st (before ++ AuthHelper.watchdog :: after))))).
  { induction before as [| ev before IH]; intros st.
    - cbn [app]. rewrite exec_cons, progressSteps_app, in_app_iff.
      intros [H | H]; [cbn in H; tauto |].
      cbn [AuthHelper.handle fst AuthHelper.loopQuit] in H.
      destruct (AuthHelper.loopQuit st); [destruct H |].
      revert H. now apply exec_disconnected_silent.
    - cbn [app]. rewrite exec_cons, progressSteps_app, in_app_iff.
      assert (Hev : forall error, ev <> AuthHelper.errorOccurred error).
      { intros error ->. apply (Hclean error). now left. }
      intros [H | H].
      + destruct ev as [| error | |]; cbn in H; try tauto.
        * destruct H as [H | []]. discriminate H.
        * now destruct (Hev error).
      + destruct (AuthHelper.loopQuit _); [destruct H |].
        revert H. apply IH. intros error Hin. apply (Hclean error). now right. }
  unfold AuthHelper.elevate.
  specialize (Hexec AuthHelper.armed).
  destruct (AuthHelper.exec AuthHelper.armed _) as [r t]. exact Hexec.
Qed.

Lemma watchdog_silences_errors_witness :
  ~ In 1%Z (AuthHelper.progressSteps
              (snd (AuthHelper.elevate Sample.helperArgs
                      (AuthHelper.delivered AuthHelper.EndsOnTerminate)))).
Proof.
  apply (watchdog_silences_errors Sample.helperArgs [AuthHelper.started]
           [AuthHelper.errorOccurred Qt.Crashed; AuthHelper.finished SIGTERM Qt.CrashExit]).
  intros error [H | []]. discriminate H.
Defined.

(** ** The probes of the build options and of the kernel *)

(** X12.  Asynchronous I/O is reported exactly when the text of
    [perf version --build-options] holds [aio: [ on  ]], and compression
    exactly when the program was built with Zstd and the text holds
    [zstd: [ on  ]].  Unlike the help text, an empty text has no fallback:
    both are then reported as missing.  The text is fetched by the first
    query that needs it and kept; a program built without Zstd answers for
    compression without running [perf]. *)
Theorem build_options_probes (Zstd_FOUND : bool) (m : Probe.Machine) :
  let text := Probe.perfOutput m ["version"; "--build-options"] in
  (fst (Probe.canUseAio m None) = true <-> Capability.occursIn "aio: [ on  ]" text)
  /\ (fst (Probe.canCompress Zstd_FOUND m None) = true
      <-> Zstd_FOUND = true /\ Capability.occursIn "zstd: [ on  ]" text)
  /\ (text = "" ->
      fst (Probe.canUseAio m None) = false
      /\ fst (Probe.canCompress Zstd_FOUND m None) = false)
  /\ (forall later : Probe.Machine,
        fst (Probe.canCompress true later (snd (Probe.canUseAio m None)))
        = fst (Probe.canCompress true m None)
        /\ fst (Probe.canUseAio later (snd (Probe.canCompress true m None)))
           = fst (Probe.canUseAio m None))
  /\ snd (Probe.canCompress false m None) = None.
Proof.
  intros text.
  unfold Probe.canUseAio, Probe.canCompress, Probe.perfBuildOptions. fold text.
  cbn [fst snd].
  split; [apply contains_spec |].
  split.
  { destruct Zstd_FOUND; cbn [fst].
    - rewrite contains_spec. tauto.
    - split; [discriminate | intros [H _]; discriminate H]. }
  split.
  { intros ->. destruct Zstd_FOUND; split; reflexivity. }
  split; [intros later; split; reflexivity | reflexivity].
Qed.

Lemma build_options_probes_witness :
  let m := {| Probe.fileInfo := fun _ => {| Probe.isDir := false; Probe.isReadable := false |};
              Probe.readFile := fun _ => None;
              Probe.findExecutable := fun _ => "";
              Probe.perfOutput := fun _ => "" |} in
  fst (Probe.canUseAio m None) = false /\ fst (Probe.canCompress true m None) = false.
Proof.
  intros m.
  apply (proj1 (proj2 (proj2 (build_options_probes true m)))). reflexivity.
Defined.

Lemma trimStart_blank (l s : string) :
  Probe.blank l = true -> Probe.trimStart (l +:+ s) = Probe.trimStart s.
Proof.
  induction l as [| x l IH]; intros Hl; [reflexivity |].
  cbn [Probe.blank] in Hl. apply andb_true_iff in Hl as [Hx Hl].
  rewrite append_cons. cbn [Probe.trimStart]. rewrite Hx. now apply IH.
Qed.

Lemma trimStart_split (s : string) :
  exists l, Probe.blank l = true /\ s = l +:+ Probe.trimStart s.
Proof.
  induction s as [| x s (l & Hl & Hs)].
  - exists "". split; reflexivity.
  - cbn [Probe.trimStart]. destruct (Probe.isSpace x) eqn:Hx.
    + exists (String x l). split; [cbn; now rewrite Hx, Hl |].
      rewrite append_cons. now f_equal.
    + exists "". split; reflexivity.
Qed.

Lemma trimEnd_blank (r : string) : Probe.blank r = true -> Probe.trimEnd r = "".
Proof.
  induction r as [| x r IH]; intros Hr; [reflexivity |].
  cbn [Probe.blank] in Hr. apply andb_true_iff in Hr as [Hx Hr].
  cbn [Probe.trimEnd]. rewrite (IH Hr), Hx. reflexivity.
Qed.

Lemma trimEnd_split (s : string) :
  exists r, Probe.blank r = true /\ s = Probe.trimEnd s +:+ r.
Proof.
  induction s as [| x s (r & Hr & Hs)].
  - exists "". split; reflexivity.
  - cbn [Probe.trimEnd].
    destruct (Probe.isSpace x && Qt.isEmpty (Probe.trimEnd s)) eqn:Hx.
    + apply andb_true_iff in Hx as [Hx Hempty].
      destruct (Probe.trimEnd s); [| discriminate Hempty].
      exists (String x r). split; [cbn; now rewrite Hx, Hr |].
      cbn in Hs. now rewrite Hs.
    + exists r. split; [exact Hr |]. rewrite append_cons. now f_equal.
Qed.

Lemma trimmed_minus_one (s : string) :
  Probe.trimmed s = "-1"
  <-> exists l r, Probe.blank l = true /\ Probe.blank r = true /\ s = l +:+ "-1" +:+ r.
Proof.
  unfold Probe.trimmed. split.
  - intros H.
    destruct (trimStart_split s) as (l & Hl & Hs).
    destruct (trimEnd_split (Probe.trimStart s)) as (r & Hr & Ht).
    exists l, r. split; [exact Hl |]. split; [exact Hr |].
    rewrite H in Ht. rewrite Ht in Hs. exact Hs.
  - intros (l & r & Hl & Hr & ->).
    rewrite (trimStart_blank l _ Hl).
    change ("-1" +:+ r) with (String "-" (String "1" r)).
    assert (Hdash : Probe.isSpace "-"%char = false) by reflexivity.
    assert (Hone : Probe.isSpace "1"%char = false) by reflexivity.
    cbn [Probe.trimStart]. rewrite Hdash.
    cbn [Probe.trimEnd]. rewrite (trimEnd_blank r Hr), Hdash, Hone.
    reflexivity.
Qed.

(** X13.  Tracing of a path is possible exactly when its directory under
    [/sys/kernel/debug/tracing/] is a readable directory and the file
    [/proc/sys/kernel/perf_event_paranoid] can be opened and holds [-1] with
    nothing but white space around it, as the line feed the kernel ends the
    value with.  Off-CPU profiling asks this of the scheduler's switch
    event. *)
Theorem tracing_needs_paranoid_minus_one (m : Probe.Machine) (path : string) :
  (Probe.canTrace m path = true
   <-> Probe.isDir (Probe.fileInfo m ("/sys/kernel/debug/tracing/" +:+ path)) = true
       /\ Probe.isReadable (Probe.fileInfo m ("/sys/kernel/debug/tracing/" +:+ path)) = true
       /\ exists content l r,
            Probe.readFile m "/proc/sys/kernel/perf_event_paranoid" = Some content
            /\ Probe.blank l = true /\ Probe.blank r = true
            /\ content = l +:+ "-1" +:+ r)
  /\ Probe.canProfileOffCpu m = Probe.canTrace m "events/sched/sched_switch".
Proof.
  split; [| reflexivity].
  unfold Probe.canTrace.
  destruct (Probe.isDir _), (Probe.isReadable _); cbn [negb orb];
    try (split; [discriminate | intros (H1 & H2 & _); discriminate]).
  destruct (Probe.readFile m _) as [content |].
  - rewrite String.eqb_eq, trimmed_minus_one. split.
    + intros (l & r & Hl & Hr & Hc). repeat split. exists content, l, r. auto.
    + intros (_ & _ & content' & l & r & Hread & Hl & Hr & Hc).
      injection Hread as <-. eauto.
  - split; [discriminate |].
    intros (_ & _ & content' & l & r & Hread & _). discriminate Hread.
Qed.

(** ** The path lists and the architecture of the settings dialog *)

Lemma split_nonempty (sep : ascii) (s : string) : SettingsDialog.split sep s <> [].
Proof.
  induction s as [| c s IH]; cbn [SettingsDialog.split]; [discriminate |].
  destruct (Ascii.eqb c sep); [discriminate |].
  destruct (SettingsDialog.split sep s); [contradiction | discriminate].
Qed.

Lemma split_append (sep : ascii) (a b : string) :
  SettingsDialog.split sep (a +:+ String sep b)
  = SettingsDialog.split sep a ++ SettingsDialog.split sep b.
Proof.
  induction a as [| c a IH].
  - cbn [SettingsDialog.split]. change ("" +:+ String sep b) with (String sep b).
    cbn [SettingsDialog.split]. now rewrite Ascii.eqb_refl.
  - rewrite append_cons. cbn [SettingsDialog.split].
    destruct (Ascii.eqb c sep); [now rewrite IH |].
    rewrite IH.
    pose proof (split_nonempty sep a) as Hne.
    destruct (SettingsDialog.split sep a); [contradiction | reflexivity].
Qed.

Lemma split_plain (sep : ascii) (s : string) :
  SettingsDialog.hasChar sep s = false -> SettingsDialog.split sep s = [s].
Proof.
  induction s as [| c s IH]; intros H; [reflexivity |].
  cbn [SettingsDialog.hasChar] in H. apply orb_false_iff in H as [Hc Hs].
  cbn [SettingsDialog.split]. rewrite Hc, (IH Hs). reflexivity.
Qed.

Lemma split_parts_plain (sep : ascii) (s : string) :
  Forall (fun part => SettingsDialog.hasChar sep part = false) (SettingsDialog.split sep s).
Proof.
  induction s as [| c s IH]; cbn [SettingsDialog.split]; [repeat constructor |].
  destruct (Ascii.eqb c sep) eqn:Hc; [constructor; [reflexivity | exact IH] |].
  destruct (SettingsDialog.split sep s) as [| first others]; [repeat constructor; cbn; now rewrite Hc |].
  apply Forall_cons in IH as [Hfirst Hothers].
  constructor; [cbn; now rewrite Hc, Hfirst | exact Hothers].
Qed.

Lemma filter_app_bool {A} (f : A -> bool) (l1 l2 : list A) :
  List.filter f (l1 ++ l2) = List.filter f l1 ++ List.filter f l2.
Proof.
  induction l1 as [| x l1 IH]; [reflexivity |].
  cbn. destruct (f x); cbn; now rewrite IH.
Qed.

Lemma fromPathString_join (items : list string) :
  SettingsDialog.fromPathString (SettingsDialog.pathString items)
  = flat_map SettingsDialog.fromPathString items.
Proof.
  unfold SettingsDialog.pathString.
  induction items as [| x items IH]; [reflexivity |].
  destruct items as [| y items].
  - cbn [Qt.join flat_map]. now rewrite app_nil_r.
  - change (Qt.join ":" (x :: y :: items)) with (x +:+ String ":" (Qt.join ":" (y :: items))).
    unfold SettingsDialog.fromPathString at 1.
    rewrite split_append, filter_app_bool.
    change (flat_map SettingsDialog.fromPathString (x :: y :: items))
      with (SettingsDialog.fromPathString x
            ++ flat_map SettingsDialog.fromPathString (y :: items)).
    rewrite <- IH. reflexivity.
Qed.

Lemma fromPathString_plain (item : string) :
  item <> "" -> SettingsDialog.hasChar ":" item = false ->
  SettingsDialog.fromPathString item = [item].
Proof.
  intros Hne Hplain. unfold SettingsDialog.fromPathString.
  rewrite (split_plain _ _ Hplain). cbn.
  destruct item; [contradiction | reflexivity].
Qed.

Lemma fromPathString_normal (s : string) :
  Forall (fun item => item <> "" /\ SettingsDialog.hasChar ":" item = false)
         (SettingsDialog.fromPathString s).
Proof.
  unfold SettingsDialog.fromPathString.
  pose proof (split_parts_plain ":" s) as H.
  induction H as [| part parts Hpart _ IH]; [constructor |].
  cbn [List.filter]. destruct part; cbn [Qt.isEmpty negb]; [exact IH |].
  constructor; [split; [discriminate | exact Hpart] | exact IH].
Qed.

Lemma flat_map_plain (items : list string) :
  Forall (fun item => item <> "" /\ SettingsDialog.hasChar ":" item = false) items ->
  flat_map SettingsDialog.fromPathString items = items.
Proof.
  induction 1 as [| item items [Hne Hplain] _ IH]; [reflexivity |].
  cbn [flat_map]. rewrite (fromPathString_plain item Hne Hplain), IH. reflexivity.
Qed.

(** X14.  Reading back the text that [extraLibPaths] or [debugPaths] makes of
    a path list gives the parts of every item, cut at its colons and without
    the empty ones.  So a list whose items are not empty and hold no colon
    comes back as it was; what comes back never holds an empty item or a
    colon; and writing and reading again changes nothing more. *)
Theorem path_list_round_trip (items : list string) (text : string) :
  SettingsDialog.fromPathString (SettingsDialog.pathString items)
  = flat_map SettingsDialog.fromPathString items
  /\ (Forall (fun item => item <> "" /\ SettingsDialog.hasChar ":" item = false) items ->
      SettingsDialog.fromPathString (SettingsDialog.pathString items) = items)
  /\ Forall (fun item => item <> "" /\ SettingsDialog.hasChar ":" item = false)
            (SettingsDialog.fromPathString text)
  /\ SettingsDialog.fromPathString
       (SettingsDialog.pathString (SettingsDialog.fromPathString text))
     = SettingsDialog.fromPathString text.
Proof.
  split; [apply fromPathString_join |].
  split; [intros H; rewrite fromPathString_join; now apply flat_map_plain |].
  split; [apply fromPathString_normal |].
  rewrite fromPathString_join. apply flat_map_plain, fromPathString_normal.
Qed.

Lemma path_list_round_trip_witness :
  SettingsDialog.fromPathString (SettingsDialog.pathString ["/usr/lib/debug"; "/opt/sym"])
  = ["/usr/lib/debug"; "/opt/sym"].
Proof.
  apply (proj1 (proj2 (path_list_round_trip ["/usr/lib/debug"; "/opt/sym"] ""))).
  repeat constructor; discriminate.
Defined.

Lemma findTextFrom_spec (text : string) (l : list string) (i : Z) :
  (SettingsDialog.findTextFrom i text l = (-1)%Z /\ ~ In text l)
  \/ exists n, SettingsDialog.findTextFrom i text l = (i + Z.of_nat n)%Z
               /\ n < length l /\ nth n l "" = text.
Proof.
  revert i. induction l as [| x l IH]; intros i.
  - left. split; [reflexivity | intros []].
  - cbn [SettingsDialog.findTextFrom]. destruct (String.eqb_spec x text) as [-> | Hne].
    + right. exists 0. rewrite Z.add_0_r. cbn.
      split; [reflexivity | split; [lia | reflexivity]].
    + destruct (IH (i + 1)%Z) as [(H1 & H2) | (n & H1 & H2 & H3)].
      * left. split; [exact H1 | intros [H | H]; [now apply Hne | now apply H2]].
      * right. exists (S n). split; [rewrite H1; lia |]. split; [cbn; lia | exact H3].
Qed.

Lemma currentText_set (box : SettingsDialog.QComboBox) (n : nat) :
  n < length (SettingsDialog.items box) ->
  SettingsDialog.currentText (SettingsDialog.setCurrentIndex (Z.of_nat n) box)
  = nth n (SettingsDialog.items box) "".
Proof.
  intros Hn. unfold SettingsDialog.currentText, SettingsDialog.setCurrentIndex,
    SettingsDialog.count. cbn [SettingsDialog.currentIndex SettingsDialog.items].
  assert (H1 : (0 <=? Z.of_nat n)%Z = true) by (apply Z.leb_le; lia).
  assert (H2 : (Z.of_nat n <? Z.of_nat (length (SettingsDialog.items box)))%Z = true)
    by (apply Z.ltb_lt; lia).
  rewrite H1, H2. cbn [andb]. rewrite H1, Nat2Z.id. reflexivity.
Qed.

(** X15.  Selecting an architecture that is not empty makes it the current
    text of the box, whether the box had it or not; it is appended as a new
    item only when no item has that text, and the other items stay.  Read
    back with [arch], it is the architecture given, except that
    [auto-detect] reads back as the empty text. *)
Theorem architecture_round_trip (box : SettingsDialog.QComboBox) (architecture : string) :
  architecture <> "" ->
  let box' := SettingsDialog.selectArchitecture architecture box in
  SettingsDialog.currentText box' = architecture
  /\ SettingsDialog.arch box'
     = (if String.eqb architecture "auto-detect" then "" else architecture)
  /\ (In architecture (SettingsDialog.items box) ->
      SettingsDialog.items box' = SettingsDialog.items box)
  /\ (~ In architecture (SettingsDialog.items box) ->
      SettingsDialog.items box' = SettingsDialog.items box ++ [architecture]).
Proof.
  intros Hne box'.
  assert (Htext : SettingsDialog.currentText box' = architecture
                  /\ (In architecture (SettingsDialog.items box) ->
                      SettingsDialog.items box' = SettingsDialog.items box)
                  /\ (~ In architecture (SettingsDialog.items box) ->
                      SettingsDialog.items box'
                      = SettingsDialog.items box ++ [architecture])).
  { subst box'. unfold SettingsDialog.selectArchitecture.
    destruct architecture as [| x rest]; [contradiction |]. cbn [Qt.isEmpty negb].
    set (a := String x rest) in *.
    unfold SettingsDialog.findText.
    destruct (findTextFrom_spec a (SettingsDialog.items box) 0)
      as [(H1 & H2) | (n & H1 & H2 & H3)].
    - rewrite H1. cbn [Z.eqb Pos.eqb].
      split; [| split; [intros H; contradiction | reflexivity]].
      unfold SettingsDialog.count.
      rewrite (currentText_set (SettingsDialog.addItem a box)
                 (length (SettingsDialog.items box))).
      + cbn [SettingsDialog.items SettingsDialog.addItem].
        rewrite app_nth2 by lia. now rewrite Nat.sub_diag.
      + cbn [SettingsDialog.items SettingsDialog.addItem]. rewrite length_app. cbn. lia.
    - rewrite H1, Z.add_0_l.
      destruct (Z.eqb_spec (Z.of_nat n) (-1)) as [Hneg | _]; [lia |].
      rewrite (currentText_set box n H2).
      split; [exact H3 |]. split; [reflexivity |].
      intros Hnot. destruct Hnot. rewrite <- H3. now apply nth_In. }
  destruct Htext as (Ht & Hin & Hout).
  split; [exact Ht |]. split; [| split; assumption].
  unfold SettingsDialog.arch. rewrite Ht. reflexivity.
Qed.

Lemma architecture_round_trip_witness :
  SettingsDialog.arch
    (SettingsDialog.selectArchitecture "aarch64"
       {| SettingsDialog.items := ["auto-detect"; "x86"]; SettingsDialog.currentIndex := 0 |})
  = "aarch64".
Proof.
  refine (proj1 (proj2 (architecture_round_trip
                          {| SettingsDialog.items := ["auto-detect"; "x86"];
                             SettingsDialog.currentIndex := 0 |} "aarch64" _))).
  discriminate.
Defined.

(** ** More on errors, markers and process ids *)

(** X16.  A stop mutes the errors of the child only until the child has
    exited: between the stop and the exit an error is not reported; after the
    exit an error is reported again, as [recordingFailed] with the error text
    of the process the session holds at that moment. *)
Theorem errors_reported_again_after_exit
    (w1 w2 : World) (s : Session) (p q : nat) (error : Qt.ProcessError)
    (exitCode : Z) (exitStatus : Qt.ExitStatus) :
  is_Some (connections s !! p) ->
  m_perfRecordProcess s = Some q ->
  let stopped := state_of (stopRecording s) in
  let exited := state_of (dispatch w1 (ProcFinished p exitCode exitStatus) stopped) in
  trace_of (dispatch w2 (ProcErrorOccurred p error) stopped) = []
  /\ trace_of (dispatch w2 (ProcErrorOccurred p error) exited)
     = [Emit (recordingFailed (errorString w2 q))].
Proof.
  intros Hconn Hq stopped exited.
  destruct (stopRecording_run s) as [Hst _]. fold stopped in Hst.
  split.
  - apply dispatch_error_muted. rewrite Hst. reflexivity.
  - assert (Hconn1 : is_Some (connections stopped !! p)) by (now rewrite Hst).
    destruct (dispatch_finished w1 stopped p exitCode exitStatus Hconn1) as [_ Hex].
    fold exited in Hex. rewrite onFinished_state, Hst in Hex.
    unfold dispatch. rewrite trace_of_get.
    destruct (decide _) as [_ | Hn]; [| destruct Hn; now rewrite Hex].
    unfold onErrorOccurred. rewrite trace_of_get, Hex.
    cbn [m_userTerminated m_perfRecordProcess set_userTerminated negb].
    rewrite Hq. reflexivity.
Qed.

Lemma errors_reported_again_after_exit_witness :
  let stopped := state_of (stopRecording Sample.recording) in
  let exited := state_of (dispatch Sample.quiet (ProcFinished 0 SIGTERM Qt.CrashExit) stopped) in
  trace_of (dispatch Sample.quiet (ProcErrorOccurred 0 Qt.Crashed) exited)
  = [Emit (recordingFailed "execvp: No such file or directory")].
Proof.
  refine (proj2 (errors_reported_again_after_exit Sample.quiet Sample.quiet Sample.recording
                   0 0 Qt.Crashed SIGTERM Qt.CrashExit _ eq_refl)).
  exists {| startedSlot := Some ("perf", ["record"; "-o"; "/tmp/out.data"]) |}.
  vm_compute. reflexivity.
Defined.

(** X17.  A poll whose bytes hold the error marker and not the success marker
    emits one failure that carries those bytes, starts nothing, and leaves the
    session's child alone.  When the bytes hold both markers the success
    marker wins: the bytes are forwarded as output and no failure of the
    elevation is reported. *)
Theorem error_marker_fails_unless_elevated
    (w : World) (s : Session) (c : nat) (e : Elevation) :
  elevations s !! c = Some e ->
  is_Some (readTimer e) ->
  let data := Qt.drop (readPos e) (tempFileContent w c) in
  let r := dispatch w (TimerTimeout c) s in
  let failure := Emit (recordingFailed ("Failed to elevate privileges: " +:+ data)) in
  Qt.contains data errorMarker = true ->
  (Qt.contains data privilegesElevated = false ->
   trace_of r = [failure]
   /\ m_perfRecordProcess (state_of r) = m_perfRecordProcess s
   /\ connections (state_of r) = connections s)
  /\ (Qt.contains data privilegesElevated = true ->
      ~ In failure (trace_of r)
      /\ exists rest,
           trace_of r = Emit (recordingOutput data) :: Emit (recordingOutput Qt.LF) :: rest).
Proof.
  intros He Ht data r failure Herr.
  destruct (dispatch_timeout w s c e He Ht) as [Hst Htr]. fold r in Hst, Htr.
  pose proof (readSlot_run w s c e He) as Hrun. cbv zeta in Hrun. fold data in Hrun.
  assert (Hne : Qt.isEmpty data = false).
  { destruct data; [vm_compute in Herr; discriminate Herr | reflexivity]. }
  rewrite Hne, Herr in Hrun.
  split; intros Hs; rewrite Hs in Hrun; destruct Hrun as [Hst' Htr'];
    rewrite <- Hst in Hst'; rewrite <- Htr in Htr'.
  - split; [exact Htr' |]. rewrite Hst'. split; reflexivity.
  - split; [| eexists; exact Htr'].
    rewrite Htr'. cbn [app In]. intros [H | [H | H]]; try discriminate H.
    set (s1 := set_elevations _ s) in *.
    destruct (folderUsable_dec w (outputPath e)) as [Hok | Hbad].
    + destruct (startRecording_accepted w s1 (perfOptions e) (outputPath e)
                  (recordOptions e) (workingDirectory e) Hok) as (Hstart & _).
      rewrite Hstart, !in_app_iff in H. unfold Spec.replaced in H.
      destruct (m_perfRecordProcess s1), (Qt.isEmpty (workingDirectory e));
        cbn in H; intuition discriminate.
    + destruct (startRecording_rejected w s1 (perfOptions e) (outputPath e)
                  (recordOptions e) (workingDirectory e) Hbad)
        as ((reason & Hreason & Hstart) & _).
      rewrite Hstart, !in_app_iff in H. unfold Spec.replaced in H.
      assert (Hdiff : recordingFailed reason
                      <> recordingFailed ("Failed to elevate privileges: " +:+ data)).
      { intros Heq. injection Heq as Heq.
        destruct Hreason as [<- | [<- | [<- | []]]]; discriminate Heq. }
      destruct (m_perfRecordProcess s1); cbn in H;
        repeat (destruct H as [H | H]; try discriminate H; try contradiction);
        try (injection H as H; apply Hdiff; now f_equal).
Qed.

Lemma error_marker_fails_unless_elevated_witness :
  trace_of (dispatch (Sample.machine (fun _ => "Error: not authorized")) (TimerTimeout 0)
              (Sample.elevating "/tmp/out.data"))
  = [Emit (recordingFailed "Failed to elevate privileges: Error: not authorized")].
Proof.
  refine (proj1 (proj1 (error_marker_fails_unless_elevated
                          (Sample.machine (fun _ => "Error: not authorized"))
                          (Sample.elevating "/tmp/out.data") 0 _
                          (elevating_lookup "/tmp/out.data") _ _) _)).
  - exists 250%Z. reflexivity.
  - vm_compute. reflexivity.
  - vm_compute. reflexivity.
Defined.

(** X18.  A recording of processes by id puts [--pid] and the ids, joined by
    commas, after all options of the caller.  Without elevation and with a
    usable output folder exactly one process is started, as
    [perf record -o outputPath perfOptions --pid ids]; with elevation nothing
    is started yet and that same option list is kept for the poll. *)
Theorem pid_recording_command
    (w : World) (s : Session) (perfOptions : list string) (outputPath : string)
    (pid : string) (pids : list string) :
  let options := perfOptions ++ ["--pid"; Qt.join "," (pid :: pids)] in
  let p := nextObject s in
  (Spec.folderUsable w outputPath ->
   spawns (trace_of (record w perfOptions outputPath false (pid :: pids) s))
   = [(p, "perf", ["record"; "-o"; outputPath] ++ options)])
  /\ (Qt.isEmpty (findLibexecBinary w "elevate_perf_privileges.sh") = false ->
      let r := record w perfOptions outputPath true (pid :: pids) s in
      spawns (trace_of r) = []
      /\ elevations (state_of r) !! p
         = Some {| readPos := 0; readTimer := None;
                   PerfRecord.perfOptions := options;
                   PerfRecord.outputPath := outputPath;
                   recordOptions := []; workingDirectory := "" |}).
Proof.
  intros options p. split.
  - intros Hok. rewrite record_not_elevated. fold options.
    destruct (startRecording_accepted w s options outputPath [] "" Hok) as (Ht & _).
    rewrite Ht, !spawns_app, spawns_replaced, app_nil_r. reflexivity.
  - intros Hscript r.
    destruct (startRecordingElevated_captures w s options outputPath [] "" Hscript)
      as (Hcap & Hsp & _).
    split; [exact Hsp | exact Hcap].
Qed.

Lemma pid_recording_command_witness :
  spawns (trace_of (record Sample.quiet ["-g"] "/tmp/out.data" false ["12"; "34"; "56"]
                      initial))
  = [(0, "perf", ["record"; "-o"; "/tmp/out.data"; "-g"; "--pid"; "12,34,56"])].
Proof.
  refine (proj1 (pid_recording_command Sample.quiet initial ["-g"] "/tmp/out.data"
                   "12" ["34"; "56"]) _).
  repeat split.
Defined.
